(** * universe_builder: a shallow embedding of [screener/universe_builder.py]

    The development follows the source file top to bottom:

    - Python text ([str.strip], [str.upper], [str.endswith]) on strings
      of the code points below 256: the whitespace table is Python's on
      that range, the case table is the one of ASCII, so [upper] is
      Python's on ASCII text ([isascii]);
    - [to_yahoo_symbol];
    - a [DataFrame] as an ordered list of named columns and
      [extract_symbols] with its two selection loops;
    - the insertion-ordered [dict] behind [list(dict.fromkeys(symbols))];
    - a state-and-exception monad over a trace of effects (HTTP requests,
      sleeps, console lines, market-data lookups), [fetch_csv] and
      [ensure_min_count] in it.

    Python [int] is [Z]; [len] results are [nat]; exceptions are values of
    [exn]; a function that may fall off its end returns [option]. *)

From Stdlib Require Import String Ascii List ZArith NArith Lia Bool Arith.
From Stdlib Require Import Sorting.Sorted Sorting.Permutation.
Import ListNotations.

Local Open Scope string_scope.
Local Open Scope list_scope.

(* ================================================================== *)
(** ** Python text *)

Module PyStr.

(** [str.isspace] on one code point below 256: TAB, LF, VT, FF, CR, the
    four separators FS, GS, RS, US, the space, and outside ASCII the next
    line control U+0085 and the no-break space U+00A0. *)
Definition isspace (c : ascii) : bool :=
  let n := N_of_ascii c in
  ((9 <=? n) && (n <=? 13) || (28 <=? n) && (n <=? 32)
   || (n =? 133) || (n =? 160))%N.

(** [str.isascii] on one code point. *)
Definition isascii_char (c : ascii) : bool := (N_of_ascii c <? 128)%N.

(** [s.isascii()] *)
Fixpoint isascii (s : string) : bool :=
  match s with
  | EmptyString => true
  | String c s' => isascii_char c && isascii s'
  end.

(** [str.upper] on one character of ASCII text: a..z to A..Z, every
    other character unchanged.  Outside ASCII [str.upper] follows the
    Unicode case table, under which a character can become several
    (U+00DF becomes SS): what depends on the length or on the value of
    uppercased text is stated for [isascii] text. *)
Definition upper_char (c : ascii) : ascii :=
  let n := N_of_ascii c in
  if ((97 <=? n) && (n <=? 122))%N then ascii_of_N (n - 32) else c.

Fixpoint upper (s : string) : string :=
  match s with
  | EmptyString => EmptyString
  | String c s' => String (upper_char c) (upper s')
  end.

Fixpoint lstrip (s : string) : string :=
  match s with
  | EmptyString => EmptyString
  | String c s' => if isspace c then lstrip s' else s
  end.

Fixpoint rstrip (s : string) : string :=
  match s with
  | EmptyString => EmptyString
  | String c s' =>
      match rstrip s' with
      | EmptyString => if isspace c then EmptyString else String c EmptyString
      | r => String c r
      end
  end.

(** [s.strip()] with no argument: whitespace removed at both ends. *)
Definition strip (s : string) : string := rstrip (lstrip s).

(** [s.endswith(suffix)]: [s] is [suffix], or its tail ends with it. *)
Fixpoint endswith (s suffix : string) : bool :=
  (s =? suffix) ||
  match s with
  | EmptyString => false
  | String _ s' => endswith s' suffix
  end.

(** Membership [x in xs] on a list of strings. *)
Definition mem (x : string) (xs : list string) : bool :=
  existsb (String.eqb x) xs.

End PyStr.

Import PyStr.

(* ================================================================== *)
(** ** [to_yahoo_symbol] *)

(** [str(sym)] on a [str] is the identity; every caller passes the
    elements of [astype(str).tolist()]. *)
Definition to_yahoo_symbol (sym : string) : string :=
  let s := upper (strip sym) in
  if negb (endswith s ".NS") then (s ++ ".NS")%string else s.

(* ================================================================== *)
(** ** Exceptions and fallible results *)

Inductive exn_class : Type :=
| ValueError
| RuntimeError
| AttributeError
| KeyError
| LibraryError (name : string).   (* raised inside requests, pandas, yfinance *)

(** An exception object: its class and its message ([str(e)]), and for
    one raised by [raise ... from cause] its [__cause__].  Only subclasses
    of [Exception] occur: they are what [except Exception] catches. *)
Inductive exn : Type :=
| Exception (cls : exn_class) (msg : string)
| ExceptionFrom (cls : exn_class) (msg : string) (cause : exn).

Definition exn_class_of (e : exn) : exn_class :=
  match e with Exception cls _ | ExceptionFrom cls _ _ => cls end.

Definition exn_str (e : exn) : string :=
  match e with Exception _ msg | ExceptionFrom _ msg _ => msg end.


Inductive result (A : Type) : Type :=
| Ok (a : A)
| Raise (e : exn).

Arguments Ok {A} a.
Arguments Raise {A} e.

Module ResultMonad.

Definition bind {A B : Type} (r : result A) (k : A -> result B) : result B :=
  match r with
  | Ok a => k a
  | Raise e => Raise e
  end.

Notation "x <-! c ;; k" := (bind c (fun x => k))
  (at level 61, c at next level, right associativity).

End ResultMonad.

Import ResultMonad.

(* ================================================================== *)
(** ** Tables: the part of pandas that the source calls *)

(** A cell of a parsed table: missing ([NaN], what [dropna] removes), a
    Python [str], or a number, carried by its [str()] rendering. *)
Inductive cell : Type :=
| NaN
| Str (s : string)
| Num (repr : string).

Inductive dtype : Type :=
| object          (* columns holding text, or mixed values *)
| numeric.        (* int64, float64, bool *)

Record Series : Type := mkSeries {
  name : string;
  dtype_of : dtype;
  values : list cell
}.

(** Are the labels pairwise different? *)
Fixpoint distinct (labels : list string) : bool :=
  match labels with
  | [] => true
  | x :: rest => negb (mem x rest) && distinct rest
  end.

(** A parsed table: its columns in table order.  [pd.read_csv] renames a
    repeated header ([X], [X.1], ...), so the labels of a frame are
    pairwise different.  All columns have the same number of cells. *)
Record DataFrame : Type := mkDataFrame {
  series : list Series;
  labels_unique : distinct (map name series) = true
}.

(** [df.columns] *)
Definition columns (df : DataFrame) : list string := map name (series df).

(** [df.empty]: some axis has length zero. *)
Definition empty (df : DataFrame) : bool :=
  match series df with
  | [] => true
  | c :: _ => Nat.eqb (List.length (values c)) 0
  end.

(** [df[col]]: the column labelled [col]; an unknown label raises
    [KeyError]. *)
Definition getitem (df : DataFrame) (col : string) : result Series :=
  match find (fun c => name c =? col) (series df) with
  | Some c => Ok c
  | None => Raise (Exception KeyError col)
  end.

Definition notna (c : cell) : bool :=
  match c with NaN => false | _ => true end.

Definition is_str (c : cell) : bool :=
  match c with Str _ => true | _ => false end.

(** [str(x)] of a cell, as [astype(str)] applies it. *)
Definition cell_str (c : cell) : string :=
  match c with
  | NaN => "nan"
  | Str s => s
  | Num repr => repr
  end.

(** [series.dropna().astype(str).tolist()] *)
Definition dropna_astype_str_tolist (s : Series) : list string :=
  map cell_str (filter notna (values s)).

(** [series.str.len()]: the accessor raises [AttributeError] unless the
    column is of dtype object and its present values are not all numbers;
    the length is missing for a cell that is not text. *)
Definition str_len (s : Series) : result (list (option nat)) :=
  match dtype_of s with
  | numeric =>
      Raise (Exception AttributeError
               "Can only use .str accessor with string values!")
  | object =>
      let present := filter notna (values s) in
      if negb (existsb is_str present) && negb (Nat.eqb (List.length present) 0)
      then Raise (Exception AttributeError
                    "Can only use .str accessor with string values!")
      else Ok (map (fun c => match c with
                             | Str t => Some (String.length t)
                             | _ => None
                             end) (values s))
  end.

Section StableSort.

Context {A : Type}.

(** [before y x]: [y] has to stand strictly before [x]. *)
Variable before : A -> A -> bool.

Fixpoint insert (x : A) (l : list A) : list A :=
  match l with
  | [] => [x]
  | y :: l' => if before y x then y :: insert x l' else x :: l
  end.

(** A stable sort: elements that [before] does not separate keep the
    order they had.  Python's [list.sort] is stable, with [reverse=True]
    too, so it computes this list. *)
Fixpoint stable_sort (l : list A) : list A :=
  match l with
  | [] => []
  | x :: l' => insert x (stable_sort l')
  end.

End StableSort.

Fixpoint present_lengths (lens : list (option nat)) : list nat :=
  match lens with
  | [] => []
  | Some n :: rest => n :: present_lengths rest
  | None :: rest => present_lengths rest
  end.

(** Twice [series.median()], missing values skipped; [None] is the [nan]
    of a series with no value.  The median of an even number of values is
    the mean of the two middle ones, so its double is their sum. *)
Definition median_doubled (lens : list (option nat)) : option nat :=
  let sorted := stable_sort Nat.ltb (present_lengths lens) in
  let n := List.length sorted in
  if Nat.eqb n 0 then None
  else if Nat.odd n then Some (2 * nth (n / 2) sorted 0)
  else Some (nth (n / 2 - 1) sorted 0 + nth (n / 2) sorted 0).

(** [series.median() < bound]; a comparison with [nan] is false. *)
Definition median_lt (lens : list (option nat)) (bound : nat) : bool :=
  match median_doubled lens with
  | None => false
  | Some m2 => Nat.ltb m2 (2 * bound)
  end.

(* ================================================================== *)
(** ** [extract_symbols] *)

Definition PREFERRED : list string :=
  ["Symbol"; "SYMBOL"; "symbol"; "Ticker"; "ticker"].

(** The expression both [return] statements evaluate. *)
Definition normalized_column (df : DataFrame) (col : string)
  : result (list string) :=
  s <-! getitem df col ;;
  Ok (map to_yahoo_symbol (dropna_astype_str_tolist s)).

(** First loop, lines 53-55.  [Some] is a [return], [None] the end of the
    loop. *)
Fixpoint by_preferred (df : DataFrame) (cols : list string)
  : result (option (list string)) :=
  match cols with
  | [] => Ok None
  | col :: rest =>
      if mem col (columns df)
      then syms <-! normalized_column df col ;; Ok (Some syms)
      else by_preferred df rest
  end.

(** The body of the [try] block, lines 59-60. *)
Definition try_short_text (df : DataFrame) (col : string)
  : result (option (list string)) :=
  s <-! getitem df col ;;
  lens <-! str_len s ;;
  if median_lt lens 8
  then syms <-! normalized_column df col ;; Ok (Some syms)
  else Ok None.

Definition dtype_is_object (d : dtype) : bool :=
  match d with object => true | numeric => false end.

(** Second loop, lines 56-62: [except Exception: continue]. *)
Fixpoint by_heuristic (df : DataFrame) (cols : list string)
  : result (option (list string)) :=
  match cols with
  | [] => Ok None
  | col :: rest =>
      s <-! getitem df col ;;
      if dtype_is_object (dtype_of s) then
        match try_short_text df col with
        | Ok (Some syms) => Ok (Some syms)
        | Ok None => by_heuristic df rest
        | Raise _ => by_heuristic df rest
        end
      else by_heuristic df rest
  end.

Definition NO_COLUMN : exn :=
  Exception ValueError "No suitabe ticker column found in CSV.".

Definition extract_symbols (df : DataFrame) : result (list string) :=
  r <-! by_preferred df PREFERRED ;;
  match r with
  | Some syms => Ok syms
  | None =>
      r <-! by_heuristic df (columns df) ;;
      match r with
      | Some syms => Ok syms
      | None => Raise NO_COLUMN
      end
  end.

(* ================================================================== *)
(** ** [list(dict.fromkeys(symbols))] *)

Module PyDict.

(** A [dict] keeps its keys in insertion order; assigning to a key that is
    present keeps the key where it is. *)
Definition dict (V : Type) : Type := list (string * V).

Fixpoint setitem {V : Type} (d : dict V) (k : string) (v : V) : dict V :=
  match d with
  | [] => [(k, v)]
  | (k', v') :: d' =>
      if k' =? k then (k', v) :: d' else (k', v') :: setitem d' k v
  end.

(** [dict.fromkeys(keys)]: every key bound to [None]. *)
Definition fromkeys (keys : list string) : dict unit :=
  fold_left (fun d k => setitem d k tt) keys [].

(** [list(d)] *)
Definition keys {V : Type} (d : dict V) : list string := map fst d.

(** [d.get(k)]: [None] for a key that is not there. *)
Fixpoint get {V : Type} (d : dict V) (k : string) : option V :=
  match d with
  | [] => None
  | (k', v) :: d' => if k' =? k then Some v else get d' k
  end.

End PyDict.

Definition dedup (symbols : list string) : list string :=
  PyDict.keys (PyDict.fromkeys symbols).

(* ================================================================== *)
(** ** Effects: requests, sleeps, console lines, market-data lookups *)

Inductive event : Type :=
| HttpGet (url : string)               (* requests.get *)
| Sleep (seconds : Z)                  (* time.sleep *)
| PrintTopUp (bucket : string) (have : nat) (want : Z)    (* line 70 *)
| TickerLookup (symbol : string).      (* yf.Ticker(s) and its reads *)

Definition trace : Type := list event.

Definition is_get (e : event) : bool :=
  match e with HttpGet _ => true | _ => false end.

Definition is_lookup (e : event) : bool :=
  match e with TickerLookup _ => true | _ => false end.

(** Number of calls of [requests.get] issued so far.  What the
    market-data provider sends over the network is inside its lookups,
    which are counted apart ([is_lookup]). *)
Definition requests (tr : trace) : nat := List.length (filter is_get tr).

(** A computation reads and extends the trace and returns or raises. *)
Definition M (A : Type) : Type := trace -> result A * trace.

Module EffectMonad.

Definition ret {A : Type} (a : A) : M A := fun tr => (Ok a, tr).

Definition raise {A : Type} (e : exn) : M A := fun tr => (Raise e, tr).

Definition bind {A B : Type} (m : M A) (k : A -> M B) : M B :=
  fun tr =>
    match m tr with
    | (Ok a, tr') => k a tr'
    | (Raise e, tr') => (Raise e, tr')
    end.

(** [try: m  except Exception as e: handler e] *)
Definition catch {A : Type} (m : M A) (handler : exn -> M A) : M A :=
  fun tr =>
    match m tr with
    | (Ok a, tr') => (Ok a, tr')
    | (Raise e, tr') => handler e tr'
    end.

Definition lift {A : Type} (r : result A) : M A := fun tr => (r, tr).

Definition emit (e : event) : M unit := fun tr => (Ok tt, tr ++ [e]).

Notation "x <- c ;; k" := (bind c (fun x => k))
  (at level 61, c at next level, right associativity).

Notation "c ;;; k" := (bind c (fun _ => k))
  (at level 61, right associativity).

End EffectMonad.

Import EffectMonad.

(** What one pass through lines 30-35 gives: an exception of [requests]
    or [pandas] (connection, HTTP status, parse), or the parsed frame. *)
Inductive attempt : Type :=
| Failed (e : exn)
| Parsed (df : DataFrame).

(** Python values read from the market-data provider. *)
Inductive pyval : Type :=
| PyNone
| PyInt (z : Z).

(** A [yf.Ticker]: reading [fast_info] or [info] may raise; [fast_info]
    is an object with named attributes, [info] a [dict]. *)
Record Ticker : Type := mkTicker {
  fast_info : result (PyDict.dict pyval);
  info : result (PyDict.dict pyval)
}.

(** [getattr(obj, name, default)] *)
Definition getattr (obj : PyDict.dict pyval) (attr : string) (default : pyval)
  : pyval :=
  match PyDict.get obj attr with
  | Some v => v
  | None => default
  end.

(** [d.get(key)] *)
Definition dict_get (d : PyDict.dict pyval) (key : string) : pyval :=
  match PyDict.get d key with
  | Some v => v
  | None => PyNone
  end.

(** Lines 78-81 on an already built ticker: the value of [cap]. *)
Definition market_cap (t : result Ticker) : result pyval :=
  t <-! t ;;
  fi <-! fast_info t ;;
  match getattr fi "market _cap" PyNone with
  | PyNone => d <-! info t ;; Ok (dict_get d "marketCap")
  | cap => Ok cap
  end.

(** [range(lo, hi)] *)
Fixpoint range_from (lo : Z) (n : nat) : list Z :=
  match n with
  | O => []
  | S n' => lo :: range_from (lo + 1) n'
  end.

Definition py_range (lo hi : Z) : list Z := range_from lo (Z.to_nat (hi - lo)).

(** [l[:n]] *)
Definition slice_to {A : Type} (n : Z) (l : list A) : list A :=
  if (0 <=? n)%Z then firstn (Z.to_nat n) l
  else firstn (List.length l - Z.to_nat (- n)) l.

Definition NIFTY500_CSV : string :=
  "https://www.niftyindices.com/IndexConstituent/ind_nifty500list.csv".

Definition EMPTY_CSV : exn :=
  Exception ValueError "Empty CSV received from source".

Section World.

(** The network: what the request answers, given how many requests were
    issued before it and the address. *)
Variable http : nat -> string -> attempt.

(** The market-data provider: building the ticker of a symbol may raise. *)
Variable yf_Ticker : string -> result Ticker.

(* ------------------------------------------------------------------ *)
(** *** [fetch_csv] *)

(** Lines 30-35. *)
Definition get_and_parse (url : string) : M DataFrame :=
  fun tr =>
    match http (requests tr) url with
    | Failed e => (Raise e, tr ++ [HttpGet url])
    | Parsed df => (Ok df, tr ++ [HttpGet url])
    end.

(** The [try] block, lines 30-38. *)
Definition try_fetch (url : string) : M (option DataFrame) :=
  df <- get_and_parse url ;;
  if empty df then raise EMPTY_CSV else ret (Some df).

(** [time.sleep(secs)]: a negative value raises. *)
Definition NEGATIVE_SLEEP : exn :=
  Exception ValueError "sleep length must be non-negative".

Definition time_sleep (secs : Z) : M unit :=
  if (secs <? 0)%Z then raise NEGATIVE_SLEEP else emit (Sleep secs).

Definition fetch_error (url : string) (last_err : exn) : exn :=
  ExceptionFrom RuntimeError
    ("Failed to fecth " ++ url ++ " : " ++ exn_str last_err)%string last_err.

(** The [for] loop, lines 28-44.  A loop that runs out of attempts falls
    off the end of the function, which then returns [None].  What
    [time.sleep] raises inside the handler leaves the function. *)
Fixpoint fetch_loop (url : string) (retries : Z) (sleep : Z)
    (attempts : list Z) : M (option DataFrame) :=
  match attempts with
  | [] => ret None
  | attempt :: rest =>
      catch (try_fetch url)
        (fun e =>
           let last_err := e in
           if (attempt <? retries)%Z
           then time_sleep sleep ;;; fetch_loop url retries sleep rest
           else raise (fetch_error url last_err))
  end.

Definition fetch_csv (url : string) (retries : Z) (sleep : Z)
  : M (option DataFrame) :=
  fetch_loop url retries sleep (py_range 1 (retries + 1)).

(* ------------------------------------------------------------------ *)
(** *** [ensure_min_count] *)

(** Lines 78-81, with the lookup recorded in the trace. *)
Definition lookup (s : string) : M pyval :=
  emit (TickerLookup s) ;;; lift (market_cap (yf_Ticker s)).

(** [if cap: caps.append((s, cap))]: [None] and [0] are falsy. *)
Definition append_if_truthy (caps : list (string * Z)) (s : string)
    (cap : pyval) : list (string * Z) :=
  match cap with
  | PyNone => caps
  | PyInt z => if (z =? 0)%Z then caps else caps ++ [(s, z)]
  end.

(** The loop of lines 76-85: [except Exception: continue]. *)
Fixpoint collect_caps (remaining : list string) (caps : list (string * Z))
  : M (list (string * Z)) :=
  match remaining with
  | [] => ret caps
  | s :: rest =>
      caps' <- catch (cap <- lookup s ;; ret (append_if_truthy caps s cap))
                     (fun _ => ret caps) ;;
      collect_caps rest caps'
  end.

(** [caps.sort(key=lambda x: x[1], reverse=True)]: the larger value
    first, equal values in the order they were appended. *)
Definition sort_caps (caps : list (string * Z)) : list (string * Z) :=
  stable_sort (fun y x => (snd x <? snd y)%Z) caps.

(** Lines 75-87: the ranking of the candidates. *)
Definition rank (remaining : list string) : M (list (string * Z)) :=
  caps <- collect_caps remaining [] ;;
  ret (sort_caps caps).

(** [extract_symbols(n500_df)] on what [fetch_csv] returned. *)
Definition extract_symbols_of (df : option DataFrame) : result (list string) :=
  match df with
  | Some df => extract_symbols df
  | None =>
      Raise (Exception AttributeError
               "'NoneType' object has no attribute 'columns'")
  end.

(** [s for s in n500_syms if s not in symbols] *)
Definition not_in (symbols : list string) (n500_syms : list string)
  : list string :=
  filter (fun s => negb (mem s symbols)) n500_syms.

Definition ensure_min_count (bucket : string) (symbols : list string)
    (min_count : Z) : M (list string) :=
  let symbols := dedup symbols in
  if (Z.of_nat (List.length symbols) >=? min_count)%Z then ret symbols
  else
    emit (PrintTopUp bucket (List.length symbols) min_count) ;;;
    n500_df <- fetch_csv NIFTY500_CSV 3 1 ;;
    n500_syms <- lift (extract_symbols_of n500_df) ;;
    let remaining := not_in symbols n500_syms in
    caps <- rank remaining ;;
    let need := (min_count - Z.of_nat (List.length symbols))%Z in
    ret (symbols ++ map fst (slice_to need caps)).

End World.

(* ================================================================== *)
(** ** The notions the claims are stated with *)

(** A string is left-clean when it does not start with whitespace. *)
Definition lclean (s : string) : Prop :=
  match s with
  | EmptyString => True
  | String c _ => isspace c = false
  end.

(** An order-preserving selection of elements of a list. *)
Inductive Subseq {A : Type} : list A -> list A -> Prop :=
| Subseq_nil : Subseq [] []
| Subseq_skip x l1 l2 : Subseq l1 l2 -> Subseq l1 (x :: l2)
| Subseq_keep x l1 l2 : Subseq l1 l2 -> Subseq (x :: l1) (x :: l2).

(** First occurrence wins, later duplicates dropped, no reordering: the
    head is kept, and removed from what the rest contributes. *)
Fixpoint first_occurrences (l : list string) : list string :=
  match l with
  | [] => []
  | x :: l' => x :: filter (fun y => negb (y =? x)) (first_occurrences l')
  end.

(** A column is short text when it is of dtype object, its string lengths
    can be computed, and their median is below the threshold 8. *)
Definition short_text (c : Series) : bool :=
  dtype_is_object (dtype_of c) &&
  match str_len c with
  | Ok lens => median_lt lens 8
  | Raise _ => false
  end.

(** Two-phase column selection: the first preferred name that labels a
    column, else the leftmost short-text column. *)
Definition select_column_spec (df : DataFrame) : option Series :=
  match find (fun p => mem p (columns df)) PREFERRED with
  | Some p => find (fun c => name c =? p) (series df)
  | None => find short_text (series df)
  end.

(** What one cell contributes to the extracted list: nothing when it is
    missing, else the normalization of its text. *)
Definition cell_symbol (x : cell) : option string :=
  match x with
  | NaN => None
  | _ => Some (to_yahoo_symbol (cell_str x))
  end.

Fixpoint somes {A : Type} (l : list (option A)) : list A :=
  match l with
  | [] => []
  | Some a :: l' => a :: somes l'
  | None :: l' => somes l'
  end.

Definition symbols_of_series (c : Series) : list string :=
  somes (map cell_symbol (values c)).

(** Why an attempt fails, if it does: the request or the parser raised,
    or the parsed table is empty. *)
Definition attempt_failure (a : attempt) : option exn :=
  match a with
  | Failed e => Some e
  | Parsed df => if empty df then Some EMPTY_CSV else None
  end.

(** The effects of [k] failed attempts, each followed by a sleep. *)
Fixpoint retried (url : string) (sleep : Z) (k : nat) : trace :=
  match k with
  | O => []
  | S k' => HttpGet url :: Sleep sleep :: retried url sleep k'
  end.

(** A capitalization, or what stands in its place: the lookup raises, or
    there is no value, or there is a number. *)
Inductive cap_status : Type :=
| LookupFails (e : exn)
| CapAbsent
| CapPresent (z : Z).

(** What the lookup of lines 78-81 yields for a symbol: the value of
    [cap], read off [market_cap].  The provider's own notion, which does
    not go through the code, is [provider_cap] below. *)
Definition capitalization (yf_Ticker : string -> result Ticker) (s : string)
  : cap_status :=
  match market_cap (yf_Ticker s) with
  | Raise e => LookupFails e
  | Ok PyNone => CapAbsent
  | Ok (PyInt z) => CapPresent z
  end.

(** A candidate can be ranked when its lookup succeeds with a value that
    Python takes as true: present and not zero. *)
Definition rankable (yf_Ticker : string -> result Ticker) (s : string) : bool :=
  match capitalization yf_Ticker s with
  | CapPresent z => negb (z =? 0)%Z
  | _ => false
  end.

Definition cap_value (yf_Ticker : string -> result Ticker) (s : string) : Z :=
  match capitalization yf_Ticker s with
  | CapPresent z => z
  | _ => 0%Z
  end.

(** Descending by capitalization. *)
Definition cap_ge (a b : string * Z) : Prop := (snd b <= snd a)%Z.

(** A provider that answers like [yf_Ticker], except that it has no
    capitalization for [s]. *)
Definition without_cap (yf_Ticker : string -> result Ticker) (s : string)
  : string -> result Ticker :=
  fun s' => if s' =? s then Ok (mkTicker (Ok []) (Ok [])) else yf_Ticker s'.

(** The top-up path gets its reference universe: after the console line,
    [fetch_csv] returns a table and [extract_symbols] gives [reference]
    for it. *)
Definition reference_obtained (http : nat -> string -> attempt)
    (bucket : string) (symbols : list string) (min_count : Z) (tr : trace)
    (reference : list string) : Prop :=
  exists df tr1,
    fetch_csv http NIFTY500_CSV 3 1
      (tr ++ [PrintTopUp bucket (List.length (dedup symbols)) min_count])
    = (Ok (Some df), tr1) /\
    extract_symbols df = Ok reference.

(** The candidates of the complement, each with its capitalization, in the
    order of the loop that collects them. *)
Definition collected (yf_Ticker : string -> result Ticker)
    (remaining : list string) : list (string * Z) :=
  map (fun s => (s, cap_value yf_Ticker s))
    (filter (rankable yf_Ticker) remaining).

(** The complement, in the words of the top-up: the symbols of the
    reference list that are not in the base, in the order of the
    reference list. *)
Definition complement (base reference : list string) : list string :=
  filter (fun s => if in_dec string_dec s base then false else true)
    reference.

(** The capitalization that the provider holds for a symbol, in the words
    of the ranking contract: the value of the primary fast-path field
    ([fast_info.market_cap]); if there is none, the value of the
    secondary lookup ([info["marketCap"]]); absent when both are; a
    failure when the ticker, [fast_info], or [info] when it is needed,
    cannot be read. *)
Definition provider_cap (t : result Ticker) : cap_status :=
  match t with
  | Raise e => LookupFails e
  | Ok t =>
      match fast_info t with
      | Raise e => LookupFails e
      | Ok fi =>
          match PyDict.get fi "market_cap" with
          | Some (PyInt z) => CapPresent z
          | _ =>
              match info t with
              | Raise e => LookupFails e
              | Ok d =>
                  match PyDict.get d "marketCap" with
                  | Some (PyInt z) => CapPresent z
                  | _ => CapAbsent
                  end
              end
          end
      end
  end.

(** A capitalization that counts for the ranking: a number other than 0. *)
Definition counts (c : cap_status) : bool :=
  match c with
  | CapPresent z => negb (z =? 0)%Z
  | _ => false
  end.

Definition no_value (v : option pyval) : bool :=
  match v with
  | Some (PyInt _) => false
  | _ => true
  end.

(** The fast path has nothing to give for a symbol: [fast_info], when it
    can be read, has no value under [market_cap], nor under the name that
    line 79 asks for.  The capitalization of such a symbol is the one of
    the secondary lookup. *)
Definition fast_path_empty (yf_Ticker : string -> result Ticker) (s : string)
  : bool :=
  match yf_Ticker s with
  | Raise _ => true
  | Ok t =>
      match fast_info t with
      | Raise _ => true
      | Ok fi =>
          no_value (PyDict.get fi "market_cap") &&
          no_value (PyDict.get fi "market _cap")
      end
  end.

(* ================================================================== *)
(** ** Sample tables and worlds *)

Definition symbol_table : DataFrame :=
  mkDataFrame
    [mkSeries "Symbol" object [Str "TCS"; Str "infy"; Str " HDFC.NS "]]
    eq_refl.

Definition blank_table : DataFrame :=
  mkDataFrame
    [mkSeries "Symbol" object [Str "TCS"; Str ""; Str " "; NaN]]
    eq_refl.

Definition repeated_table : DataFrame :=
  mkDataFrame
    [mkSeries "Symbol" object [Str "TCS"; Str "INFY"; Str "tcs"]]
    eq_refl.

Definition unlabelled_table : DataFrame :=
  mkDataFrame
    [mkSeries "Company Name" object
       [Str "Tata Consultancy Services"; Str "Infosys Limited"];
     mkSeries "Series" numeric [Num "1"; Num "2"];
     mkSeries "Code" object [Str "TCS"; Str "INFY"]]
    eq_refl.

(** No preferred label; the first column of dtype object holds numbers
    only, so its string lengths cannot be computed. *)
Definition codes_table : DataFrame :=
  mkDataFrame
    [mkSeries "ISIN Code" object [Num "500325"; Num "532540"];
     mkSeries "Industry" object
       [Str "Oil Gas & Consumable Fuels"; Str "Information Technology"];
     mkSeries "Scrip" object [Str "RELIANCE"; NaN; Str "tcs.ns"]]
    eq_refl.

Definition header_only_table : DataFrame :=
  mkDataFrame [mkSeries "Symbol" object []] eq_refl.

Definition reference_table : DataFrame :=
  mkDataFrame
    [mkSeries "Symbol" object
       [Str "A"; Str "B"; Str "C"; Str "D"; Str "E"; Str "F"; Str "G"; Str "H"]]
    eq_refl.

Definition timed_out : exn :=
  Exception (LibraryError "ConnectTimeout") "timed out".

(** Two requests time out, every later one gives the reference table. *)
Definition flaky_network (n : nat) (url : string) : attempt :=
  if Nat.ltb n 2 then Failed timed_out else Parsed reference_table.

Definition ticker_with_cap (z : Z) : result Ticker :=
  Ok (mkTicker (Ok []) (Ok [("marketCap", PyInt z)])).

(** C, D, E and F have capitalizations 500, 300, 900 and 100; G has the
    capitalization 0; H has none; any other lookup raises. *)
Definition sample_provider (s : string) : result Ticker :=
  if s =? "C.NS" then ticker_with_cap 500
  else if s =? "D.NS" then ticker_with_cap 300
  else if s =? "E.NS" then ticker_with_cap 900
  else if s =? "F.NS" then ticker_with_cap 100
  else if s =? "G.NS" then ticker_with_cap 0
  else if s =? "H.NS" then Ok (mkTicker (Ok []) (Ok []))
  else Raise (Exception (LibraryError "HTTPError") "404 Client Error").

(* ================================================================== *)
(** ** [build_bucket] and [main] *)

Definition NIFTY100_CSV : string :=
  "https://nsearchives.nseindia.com/content/indices/ind_nifty100list.csv".

Definition MIDCAP150_CSV : string :=
  "https://www.niftyindices.com/IndexConstituent/ind_niftymidcap150list.csv".

Definition SMALLCAP250_CSV : string :=
  "https://www.niftyindices.com/IndexConstituent/ind_niftysmallcap250list.csv".

Definition OUT_DIR : string := "config".

(** The [dict] of lines 20-24, in insertion order: bucket, then file name
    and address. *)
Definition TARGETS : list (string * (string * string)) :=
  [("largecap", ("largecap.csv", NIFTY100_CSV));
   ("midcap", ("midcap.csv", MIDCAP150_CSV));
   ("smallcap", ("smallcap.csv", SMALLCAP250_CSV))].

(** [os.path.join(a, b)] on a POSIX system. *)
Definition path_join (a b : string) : string :=
  if String.prefix "/" b then b
  else if (a =? "") || endswith a "/" then (a ++ b)%string
  else (a ++ "/" ++ b)%string.

(** [pd.DataFrame({"ticker": syms})] *)
Definition ticker_frame (syms : list string) : DataFrame :=
  mkDataFrame [mkSeries "ticker" object (map Str syms)] eq_refl.

(** What [build_bucket] does besides what [fetch_csv] and
    [ensure_min_count] do: console lines, and operations on the disk once
    they have returned. *)
Inductive effect : Type :=
| Core (e : event)
| PrintBuilding (name url : string)              (* line 93 *)
| MakeDirs (path : string)                       (* line 98 *)
| ToCsv (path : string) (df : DataFrame)         (* line 100 *)
| PrintSaved (n : nat) (path : string).          (* line 102 *)

Definition world : Type := list effect.

Inductive disk_op : Type :=
| DoMakeDirs (path : string)      (* os.makedirs(path, exist_ok=True) *)
| DoToCsv (path : string) (df : DataFrame).   (* df.to_csv(path, index=False) *)

Definition done (op : disk_op) : effect :=
  match op with
  | DoMakeDirs path => MakeDirs path
  | DoToCsv path df => ToCsv path df
  end.

(** The requests, sleeps and lookups among the effects, in order. *)
Fixpoint core_of (w : world) : trace :=
  match w with
  | [] => []
  | Core e :: w' => e :: core_of w'
  | _ :: w' => core_of w'
  end.

(** The paths of the files written, in order. *)
Fixpoint written (w : world) : list string :=
  match w with
  | [] => []
  | ToCsv path _ :: w' => path :: written w'
  | _ :: w' => written w'
  end.

Definition B (A : Type) : Type := world -> result A * world.

Module BucketMonad.

Definition ret {A : Type} (a : A) : B A := fun w => (Ok a, w).

Definition bind {A C : Type} (m : B A) (k : A -> B C) : B C :=
  fun w =>
    match m w with
    | (Ok a, w') => k a w'
    | (Raise e, w') => (Raise e, w')
    end.

Definition lift {A : Type} (r : result A) : B A := fun w => (r, w).

Definition emit (e : effect) : B unit := fun w => (Ok tt, w ++ [e]).

(** Run a computation on the requests and lookups made so far; what it
    adds to them is added to the effects. *)
Definition run_core {A : Type} (m : M A) : B A :=
  fun w =>
    let tr := core_of w in
    match m tr with
    | (r, tr') => (r, w ++ map Core (skipn (List.length tr) tr'))
    end.

Notation "x <~ c ;; k" := (bind c (fun x => k))
  (at level 61, c at next level, right associativity).

Notation "c ;;~ k" := (bind c (fun _ => k))
  (at level 61, right associativity).

End BucketMonad.

(** A computation that leaves the trace it finds in place and writes
    after it. *)
Definition grows {A : Type} (m : M A) : Prop :=
  forall tr, exists d, snd (m tr) = tr ++ d.

(** A symbol that [to_yahoo_symbol] leaves as it is. *)
Definition normalized (s : string) : Prop := to_yahoo_symbol s = s.

(** Only whitespace. *)
Fixpoint blank (s : string) : bool :=
  match s with
  | EmptyString => true
  | String c s' => isspace c && blank s'
  end.

Section Disk.

Variable http : nat -> string -> attempt.
Variable yf_Ticker : string -> result Ticker.

(** The disk: whether an operation raises, given all that was done before
    it. *)
Variable disk : world -> disk_op -> option exn.

Import BucketMonad.

(** A disk operation: it raises, or returns and is recorded as done. *)
Definition disk_do (op : disk_op) : B unit :=
  fun w =>
    match disk w op with
    | Some e => (Raise e, w)
    | None => (Ok tt, w ++ [done op])
    end.

Definition build_bucket (name url out_file : string) (min_count : Z)
  : B unit :=
  emit (PrintBuilding name url) ;;~
  df <~ run_core (fetch_csv http url 3 1) ;;
  syms <~ lift (extract_symbols_of df) ;;
  syms <~ run_core (ensure_min_count http yf_Ticker name syms min_count) ;;
  disk_do (DoMakeDirs OUT_DIR) ;;~
  let out_path := path_join OUT_DIR out_file in
  disk_do (DoToCsv out_path (ticker_frame syms)) ;;~
  emit (PrintSaved (List.length syms) out_path).

(** The loop of lines 117-118 over [TARGETS.items()]. *)
Fixpoint build_all (targets : list (string * (string * string)))
    (args_min : Z) : B unit :=
  match targets with
  | [] => ret tt
  | (bucket, (fname, url)) :: rest =>
      build_bucket bucket url fname args_min ;;~ build_all rest args_min
  end.

(** [main], given the value [args.min] that [parse_args] returns. *)
Definition main (args_min : Z) : B unit := build_all TARGETS args_min.

End Disk.

(** A disk that accepts every operation. *)
Definition willing_disk (w : world) (op : disk_op) : option exn := None.

(** A disk on which no file can be written. *)
Definition full_disk (w : world) (op : disk_op) : option exn :=
  match op with
  | DoMakeDirs _ => None
  | DoToCsv _ _ =>
      Some (Exception (LibraryError "OSError") "No space left on device")
  end.

(* ================================================================== *)
(** ** Facts on Python text *)

Section TextFacts.

Local Open Scope string_scope.

Lemma isspace_upper_char c : isspace (upper_char c) = isspace c.
Proof. destruct c as [[] [] [] [] [] [] [] []]; reflexivity. Qed.

Lemma upper_char_idem c : upper_char (upper_char c) = upper_char c.
Proof. destruct c as [[] [] [] [] [] [] [] []]; reflexivity. Qed.

Lemma upper_idem s : upper (upper s) = upper s.
Proof.
  induction s as [|c s IH]; simpl; [reflexivity|].
  now rewrite upper_char_idem, IH.
Qed.

Lemma upper_app s t : upper (s ++ t) = upper s ++ upper t.
Proof. induction s as [|c s IH]; simpl; [reflexivity | now rewrite IH]. Qed.

Lemma upper_empty s : upper s = "" -> s = "".
Proof. destruct s; simpl; [reflexivity | discriminate]. Qed.

Lemma upper_lstrip s : upper (lstrip s) = lstrip (upper s).
Proof.
  induction s as [|c s IH]; simpl; [reflexivity|].
  rewrite isspace_upper_char. destruct (isspace c); [exact IH | reflexivity].
Qed.

Lemma upper_rstrip s : upper (rstrip s) = rstrip (upper s).
Proof.
  induction s as [|c s IH]; simpl; [reflexivity|].
  rewrite <- IH, isspace_upper_char.
  destruct (rstrip s) as [|d r]; simpl.
  - destruct (isspace c); reflexivity.
  - reflexivity.
Qed.

Lemma upper_strip s : upper (strip s) = strip (upper s).
Proof. unfold strip. now rewrite upper_rstrip, upper_lstrip. Qed.

Lemma lstrip_lclean s : lclean (lstrip s).
Proof.
  induction s as [|c s IH]; simpl; [exact I|].
  destruct (isspace c) eqn:E; [exact IH | exact E].
Qed.

Lemma lclean_lstrip s : lclean s -> lstrip s = s.
Proof. destruct s as [|c s]; simpl; [reflexivity|]. now intros ->. Qed.

Lemma rstrip_lclean s : lclean s -> lclean (rstrip s).
Proof.
  destruct s as [|c s]; simpl; [exact (fun H => H)|].
  intros E. destruct (rstrip s); [rewrite E|]; exact E.
Qed.

Lemma upper_lclean s : lclean s -> lclean (upper s).
Proof.
  destruct s as [|c s]; simpl; [exact (fun H => H)|].
  now rewrite isspace_upper_char.
Qed.

Lemma app_lclean s t : lclean s -> lclean t -> lclean (s ++ t).
Proof. destruct s; simpl; auto. Qed.

Lemma rstrip_app_NS s : rstrip (s ++ ".NS") = s ++ ".NS".
Proof.
  induction s as [|c s IH]; [reflexivity|].
  simpl append. cbn [rstrip]. rewrite IH.
  destruct s; reflexivity.
Qed.

Lemma endswith_refl s : endswith s s = true.
Proof. destruct s; cbn [endswith]; rewrite String.eqb_refl; reflexivity. Qed.

Lemma endswith_app s t : endswith (s ++ t) t = true.
Proof.
  induction s as [|c s IH]; [apply endswith_refl|].
  cbn [append endswith]. rewrite IH. apply orb_true_r.
Qed.

Lemma endswith_split s t : endswith s t = true -> exists p, s = p ++ t.
Proof.
  induction s as [|c s IH]; cbn [endswith]; intros H.
  - rewrite orb_false_r in H. apply String.eqb_eq in H. now exists "".
  - apply orb_true_iff in H as [H|H].
    + apply String.eqb_eq in H. now exists "".
    + destruct (IH H) as [p ->]. now exists (String c p).
Qed.

Lemma endswith_iff s t : endswith s t = true <-> exists p, s = p ++ t.
Proof.
  split; [apply endswith_split|]. intros [p ->]. apply endswith_app.
Qed.

(** What [to_yahoo_symbol] returns is a fixed point of each of its steps. *)
Lemma to_yahoo_symbol_endswith s : endswith (to_yahoo_symbol s) ".NS" = true.
Proof.
  unfold to_yahoo_symbol.
  destruct (endswith (upper (strip s)) ".NS") eqn:E; simpl.
  - exact E.
  - apply endswith_app.
Qed.

Lemma to_yahoo_symbol_upper s : upper (to_yahoo_symbol s) = to_yahoo_symbol s.
Proof.
  unfold to_yahoo_symbol.
  destruct (endswith (upper (strip s)) ".NS"); simpl.
  - apply upper_idem.
  - now rewrite upper_app, upper_idem.
Qed.

Lemma to_yahoo_symbol_strip s : strip (to_yahoo_symbol s) = to_yahoo_symbol s.
Proof.
  assert (L : lclean (to_yahoo_symbol s)).
  { unfold to_yahoo_symbol.
    assert (lclean (upper (strip s)))
      by (apply upper_lclean, rstrip_lclean, lstrip_lclean).
    destruct (endswith (upper (strip s)) ".NS"); simpl; [assumption|].
    apply app_lclean; [assumption | reflexivity]. }
  unfold strip. rewrite (lclean_lstrip _ L).
  destruct (endswith_split _ _ (to_yahoo_symbol_endswith s)) as [p ->].
  apply rstrip_app_NS.
Qed.

End TextFacts.

(** C8. Idempotent normalization: applying [to_yahoo_symbol] to its own
    result changes nothing, for every string [s]. *)
Theorem to_yahoo_symbol_idempotent (s : string) :
  to_yahoo_symbol (to_yahoo_symbol s) = to_yahoo_symbol s.
Proof.
  unfold to_yahoo_symbol at 1.
  rewrite to_yahoo_symbol_strip, to_yahoo_symbol_upper,
    to_yahoo_symbol_endswith.
  reflexivity.
Qed.

(* ================================================================== *)
(** ** Facts on lists *)

Section ListFacts.

Context {A : Type}.

Lemma filter_filter (f g : A -> bool) (l : list A) :
  filter f (filter g l) = filter (fun x => f x && g x) l.
Proof.
  induction l as [|x l IH]; simpl; [reflexivity|].
  destruct (g x); simpl; rewrite ?andb_false_r, ?andb_true_r.
  - destruct (f x); now rewrite IH.
  - exact IH.
Qed.

Lemma Subseq_refl (l : list A) : Subseq l l.
Proof. induction l; [apply Subseq_nil | now apply Subseq_keep]. Qed.

Lemma Subseq_nil_l (l : list A) : Subseq [] l.
Proof. induction l; constructor; assumption. Qed.

Lemma Subseq_trans (l1 l2 l3 : list A) :
  Subseq l1 l2 -> Subseq l2 l3 -> Subseq l1 l3.
Proof.
  intros H12 H23. revert l1 H12.
  induction H23 as [|x l2 l3 H IH|x l2 l3 H IH]; intros l1 H12.
  - exact H12.
  - constructor. now apply IH.
  - inversion H12; subst.
    + apply Subseq_skip. now apply IH.
    + apply Subseq_keep. now apply IH.
Qed.

Lemma filter_Subseq (f : A -> bool) (l : list A) : Subseq (filter f l) l.
Proof.
  induction l as [|x l IH]; simpl; [constructor|].
  destruct (f x); [now apply Subseq_keep | now apply Subseq_skip].
Qed.

Lemma Subseq_In (l1 l2 : list A) x : Subseq l1 l2 -> In x l1 -> In x l2.
Proof.
  induction 1 as [|y l1 l2 H IH|y l1 l2 H IH]; simpl; intuition.
Qed.

End ListFacts.

Lemma mem_In x l : mem x l = true <-> In x l.
Proof.
  unfold mem. rewrite existsb_exists. split.
  - intros [y [Hy E]]. apply String.eqb_eq in E. now subst.
  - intros H. exists x. split; [assumption | apply String.eqb_refl].
Qed.

Lemma mem_false x l : mem x l = false <-> ~ In x l.
Proof.
  rewrite <- mem_In. destruct (mem x l); split; congruence.
Qed.

Lemma mem_app x l1 l2 : mem x (l1 ++ l2) = mem x l1 || mem x l2.
Proof. apply existsb_app. Qed.

(* ================================================================== *)
(** ** Facts on [list(dict.fromkeys(symbols))] *)

Section DedupFacts.

Import PyDict.

Lemma keys_setitem (d : dict unit) k :
  keys (setitem d k tt) = if mem k (keys d) then keys d else keys d ++ [k].
Proof.
  induction d as [|[k' []] d IH]; [reflexivity|].
  cbn [setitem keys map fst mem existsb] in *. fold (mem k (map fst d)).
  rewrite (String.eqb_sym k k').
  destruct (k' =? k); cbn [orb map fst]; [reflexivity|].
  unfold keys in IH. rewrite IH.
  now destruct (mem k (map fst d)).
Qed.

Lemma keys_fold l : forall d : dict unit,
  keys (fold_left (fun d k => setitem d k tt) l d) =
  keys d ++ filter (fun y => negb (mem y (keys d))) (first_occurrences l).
Proof.
  induction l as [|x l IH]; intros d; cbn [fold_left first_occurrences filter].
  - now rewrite app_nil_r.
  - rewrite IH, keys_setitem, filter_filter.
    destruct (mem x (keys d)) eqn:E; cbn [negb].
    + f_equal. apply filter_ext. intros y.
      destruct (String.eqb_spec y x) as [->|];
        [now rewrite E | now rewrite andb_true_r].
    + rewrite <- app_assoc. cbn [app]. do 2 f_equal.
      apply filter_ext. intros y. rewrite mem_app.
      cbn [mem existsb]. rewrite orb_false_r, negb_orb. reflexivity.
Qed.

Lemma dedup_first_occurrences l : dedup l = first_occurrences l.
Proof.
  unfold dedup, fromkeys. rewrite keys_fold. cbn [keys map app].
  rewrite <- (filter_ext (fun _ => true)) by reflexivity.
  induction (first_occurrences l) as [|y r IH]; simpl; congruence.
Qed.

Lemma first_occurrences_In l x : In x (first_occurrences l) <-> In x l.
Proof.
  induction l as [|y l IH]; [reflexivity|].
  cbn [first_occurrences In]. rewrite filter_In, IH.
  destruct (String.eqb_spec x y) as [->|N]; split; intros H.
  - now left.
  - now left.
  - destruct H as [H|[H _]]; [now left | now right].
  - destruct H as [H|H]; [now left | right; now split].
Qed.

Lemma first_occurrences_NoDup l : NoDup (first_occurrences l).
Proof.
  induction l as [|y l IH]; cbn [first_occurrences]; constructor.
  - rewrite filter_In. intros [_ H]. now rewrite String.eqb_refl in H.
  - now apply NoDup_filter.
Qed.

Lemma first_occurrences_Subseq l : Subseq (first_occurrences l) l.
Proof.
  induction l as [|y l IH]; cbn [first_occurrences]; [constructor|].
  apply Subseq_keep.
  eapply Subseq_trans; [apply filter_Subseq | exact IH].
Qed.

Lemma first_occurrences_NoDup_id l : NoDup l -> first_occurrences l = l.
Proof.
  induction 1 as [|y l Hy Hl IH]; cbn [first_occurrences]; [reflexivity|].
  rewrite IH. f_equal.
  rewrite <- (filter_ext_in (fun _ => true)).
  - clear. induction l; simpl; congruence.
  - intros z Hz.
    destruct (String.eqb_spec z y) as [->|]; [contradiction | reflexivity].
Qed.

Lemma dedup_NoDup l : NoDup (dedup l).
Proof. rewrite dedup_first_occurrences. apply first_occurrences_NoDup. Qed.

Lemma dedup_In l x : In x (dedup l) <-> In x l.
Proof. rewrite dedup_first_occurrences. apply first_occurrences_In. Qed.

Lemma dedup_NoDup_id l : NoDup l -> dedup l = l.
Proof. rewrite dedup_first_occurrences. apply first_occurrences_NoDup_id. Qed.

End DedupFacts.

(* ================================================================== *)
(** ** Facts on [extract_symbols] *)

Section ExtractFacts.

Lemma somes_map_cell_symbol (cells : list cell) :
  somes (map cell_symbol cells) =
  map to_yahoo_symbol (map cell_str (filter notna cells)).
Proof.
  induction cells as [|[| |] cells IH]; simpl; congruence.
Qed.

Lemma distinct_NoDup (labels : list string) :
  distinct labels = true -> NoDup labels.
Proof.
  induction labels as [|x rest IH]; cbn [distinct]; [constructor|].
  rewrite andb_true_iff, negb_true_iff, mem_false.
  intros [Hx Hrest]. constructor; [exact Hx | now apply IH].
Qed.

Lemma columns_NoDup (df : DataFrame) : NoDup (columns df).
Proof. apply distinct_NoDup, labels_unique. Qed.

(** Among pairwise different labels, the column found under the label of
    a column is that column. *)
Lemma find_own_label (cols : list Series) c :
  NoDup (map name cols) -> In c cols ->
  find (fun c' => name c' =? name c) cols = Some c.
Proof.
  induction cols as [|a cols IH]; cbn [map find]; [contradiction|].
  intros ND Hin. inversion ND as [|? ? Hnotin ND']; subst.
  destruct Hin as [->|Hin].
  - now rewrite String.eqb_refl.
  - destruct (String.eqb_spec (name a) (name c)) as [E|_].
    + exfalso. apply Hnotin. rewrite E. now apply in_map.
    + now apply IH.
Qed.

Lemma getitem_own_label (df : DataFrame) c :
  In c (series df) -> getitem df (name c) = Ok c.
Proof.
  intros Hin. unfold getitem.
  now rewrite (find_own_label _ _ (columns_NoDup df) Hin).
Qed.

Lemma find_label (df : DataFrame) col :
  mem col (columns df) = true ->
  exists c, find (fun c' => name c' =? col) (series df) = Some c.
Proof.
  rewrite mem_In. unfold columns.
  induction (series df) as [|a cols IH]; cbn [map find In]; [contradiction|].
  destruct (String.eqb_spec (name a) col) as [_|N]; [now exists a|].
  intros [E|H]; [contradiction | now apply IH].
Qed.

Lemma normalized_column_own_label (df : DataFrame) c :
  In c (series df) ->
  normalized_column df (name c) = Ok (symbols_of_series c).
Proof.
  intros Hin. unfold normalized_column, symbols_of_series.
  rewrite getitem_own_label by assumption. cbn [ResultMonad.bind].
  now rewrite somes_map_cell_symbol.
Qed.

(** The first loop returns for the first preferred name among the labels. *)
Lemma by_preferred_find (df : DataFrame) (prefs : list string) :
  by_preferred df prefs =
  Ok match find (fun p => mem p (columns df)) prefs with
     | Some p =>
         option_map symbols_of_series
           (find (fun c => name c =? p) (series df))
     | None => None
     end.
Proof.
  induction prefs as [|p prefs IH]; cbn [by_preferred find].
  - reflexivity.
  - destruct (mem p (columns df)) eqn:E; [|exact IH].
    destruct (find_label _ _ E) as [c Hc]. rewrite Hc.
    pose proof (find_some _ _ Hc) as [Hin Hn].
    apply String.eqb_eq in Hn. subst p.
    now rewrite normalized_column_own_label.
Qed.

Lemma try_short_text_own_label (df : DataFrame) c :
  In c (series df) -> dtype_is_object (dtype_of c) = true ->
  match try_short_text df (name c) with
  | Ok (Some syms) => short_text c = true /\ syms = symbols_of_series c
  | Ok None => short_text c = false
  | Raise _ => short_text c = false
  end.
Proof.
  intros Hin Hobj. unfold try_short_text, short_text.
  rewrite getitem_own_label, Hobj by assumption.
  cbn [ResultMonad.bind andb].
  destruct (str_len c) as [lens|e]; cbn [ResultMonad.bind andb];
    [|reflexivity].
  destruct (median_lt lens 8); [|reflexivity].
  rewrite normalized_column_own_label by assumption.
  cbn [ResultMonad.bind]. now split.
Qed.

(** The second loop returns for the leftmost short-text column. *)
Lemma by_heuristic_find (df : DataFrame) :
  forall l, incl l (series df) ->
  by_heuristic df (map name l) =
  Ok (option_map symbols_of_series (find short_text l)).
Proof.
  induction l as [|c l IH]; intros Hl; cbn [map by_heuristic find].
  - reflexivity.
  - assert (Hin : In c (series df)) by (apply Hl; now left).
    assert (Hl' : incl l (series df)) by (intros x Hx; apply Hl; now right).
    rewrite getitem_own_label by assumption. cbn [ResultMonad.bind].
    destruct (dtype_is_object (dtype_of c)) eqn:Hobj.
    + pose proof (try_short_text_own_label df c Hin Hobj) as H.
      destruct (try_short_text df (name c)) as [[syms|]|e].
      * destruct H as [-> ->]. reflexivity.
      * rewrite H. now apply IH.
      * rewrite H. now apply IH.
    + unfold short_text at 1. rewrite Hobj. cbn [andb]. now apply IH.
Qed.

(** [extract_symbols], by the selection of the specification. *)
Lemma extract_symbols_select (df : DataFrame) :
  extract_symbols df =
  match select_column_spec df with
  | Some c => Ok (symbols_of_series c)
  | None => Raise NO_COLUMN
  end.
Proof.
  unfold extract_symbols, select_column_spec.
  rewrite by_preferred_find. cbn [ResultMonad.bind].
  destruct (find (fun p => mem p (columns df)) PREFERRED) as [p|] eqn:Ep.
  - apply find_some in Ep as [_ Ep].
    destruct (find_label _ _ Ep) as [c ->]. reflexivity.
  - unfold columns at 1. rewrite by_heuristic_find by apply incl_refl.
    cbn [ResultMonad.bind]. now destruct (find short_text (series df)).
Qed.

End ExtractFacts.

Section SelectionFacts.

Context {A : Type}.

Lemma find_leftmost (f : A -> bool) (left : list A) x (right : list A) :
  (forall y, In y left -> f y = false) -> f x = true ->
  find f (left ++ x :: right) = Some x.
Proof.
  induction left as [|y left IH]; cbn [app find]; intros Hl Hx.
  - now rewrite Hx.
  - rewrite (Hl y) by now left. apply IH; [|assumption].
    intros z Hz. apply Hl. now right.
Qed.

Lemma find_nowhere (f : A -> bool) (l : list A) :
  (forall y, In y l -> f y = false) -> find f l = None.
Proof.
  induction l as [|y l IH]; cbn [find]; intros Hl; [reflexivity|].
  rewrite (Hl y) by now left. apply IH. intros z Hz. apply Hl. now right.
Qed.

End SelectionFacts.

(** C9. Two-phase column selection, for every table.  (1) When a
    preferred name labels a column and no earlier name of the preference
    list does, the column with that label is extracted.  (2) When no
    preferred name labels a column, the leftmost column that is of dtype
    object and has a median string length below 8 is extracted; columns
    before it that are numeric, too long, or on which the length
    computation raises are passed over.  (3) When neither phase selects a
    column, extraction raises the [ValueError] of line 63. *)
Theorem extract_symbols_two_phase (df : DataFrame) :
  (forall earlier p later,
      PREFERRED = earlier ++ p :: later ->
      (forall q, In q earlier -> ~ In q (columns df)) ->
      In p (columns df) ->
      exists c, In c (series df) /\ name c = p /\
                extract_symbols df = Ok (symbols_of_series c))
  /\
  (forall left c right,
      (forall q, In q PREFERRED -> ~ In q (columns df)) ->
      series df = left ++ c :: right ->
      (forall d, In d left -> short_text d = false) ->
      short_text c = true ->
      extract_symbols df = Ok (symbols_of_series c))
  /\
  ((forall q, In q PREFERRED -> ~ In q (columns df)) ->
   (forall d, In d (series df) -> short_text d = false) ->
   extract_symbols df = Raise NO_COLUMN /\
   exn_class_of NO_COLUMN = ValueError).
Proof.
  rewrite (extract_symbols_select df).
  unfold select_column_spec. split; [|split].
  - intros earlier p later -> Hearlier Hp.
    rewrite find_leftmost.
    + destruct (find_label df p) as [c Hc]; [now apply mem_In|].
      rewrite Hc. apply find_some in Hc as [Hin Hn].
      apply String.eqb_eq in Hn. now exists c.
    + intros q Hq. apply mem_false. now apply Hearlier.
    + now apply mem_In.
  - intros left c right Hnone -> Hleft Hc.
    rewrite find_nowhere by (intros q Hq; apply mem_false; now apply Hnone).
    now rewrite find_leftmost.
  - intros Hnone Hall.
    rewrite find_nowhere by (intros q Hq; apply mem_false; now apply Hnone).
    now rewrite find_nowhere.
Qed.

Lemma extract_symbols_two_phase_witness :
  extract_symbols codes_table = Ok ["RELIANCE.NS"; "TCS.NS"]
  /\ exists c, In c (series symbol_table) /\ name c = "Symbol" /\
               extract_symbols symbol_table = Ok (symbols_of_series c).
Proof.
  split.
  - destruct (extract_symbols_two_phase codes_table) as [_ [H _]].
    apply (H [mkSeries "ISIN Code" object [Num "500325"; Num "532540"];
              mkSeries "Industry" object
                [Str "Oil Gas & Consumable Fuels";
                 Str "Information Technology"]]
             (mkSeries "Scrip" object [Str "RELIANCE"; NaN; Str "tcs.ns"])
             []).
    + cbn. intuition (subst; discriminate).
    + reflexivity.
    + cbn. intros d [<-|[<-|[]]]; reflexivity.
    + reflexivity.
  - destruct (extract_symbols_two_phase symbol_table) as [H _].
    apply (H [] "Symbol" ["SYMBOL"; "symbol"; "Ticker"; "ticker"]).
    + reflexivity.
    + intros q [].
    + cbn. now left.
Defined.

(** C7, as the code has it.  Every cell of the selected column
    contributes on its own: a missing cell ([NaN]) is dropped, before any
    coercion; every other cell is coerced to a string, stripped,
    uppercased, and gets the suffix [.NS] exactly when the uppercased text
    does not end with [.NS].  A text cell that is empty or blank is kept
    and gives [.NS].  A column [Symbol] holding [TCS], [infy] and
    [ HDFC.NS ] extracts to [TCS.NS], [INFY.NS], [HDFC.NS]. *)
Theorem extract_symbols_per_cell (df : DataFrame) (c : Series) :
  select_column_spec df = Some c ->
  extract_symbols df = Ok (somes (map cell_symbol (values c)))
  /\ cell_symbol NaN = None
  /\ (forall x, x <> NaN ->
        let u := upper (strip (cell_str x)) in
        cell_symbol x =
        Some (if endswith u ".NS" then u else (u ++ ".NS")%string))
  /\ cell_symbol (Str "") = Some ".NS"
  /\ cell_symbol (Str " ") = Some ".NS"
  /\ extract_symbols symbol_table = Ok ["TCS.NS"; "INFY.NS"; "HDFC.NS"].
Proof.
  intros Hsel. rewrite (extract_symbols_select df), Hsel.
  split; [reflexivity|]. split; [reflexivity|].
  split; [|repeat split].
  intros x Hx u. subst u. destruct x as [|s|r]; [contradiction| |];
    cbn [cell_symbol cell_str]; unfold to_yahoo_symbol;
    now destruct (endswith _ ".NS").
Qed.

Lemma extract_symbols_per_cell_witness :
  extract_symbols blank_table = Ok (somes (map cell_symbol
    [Str "TCS"; Str ""; Str " "; NaN])).
Proof.
  apply (extract_symbols_per_cell blank_table
           (mkSeries "Symbol" object [Str "TCS"; Str ""; Str " "; NaN])).
  reflexivity.
Defined.

(** C7, as stated, fails: of the cells [TCS], the empty string, a blank
    and a missing value, only the missing one is dropped; the empty and
    the blank one each come out as the bare suffix, where the claim has
    the extraction give [TCS.NS] alone. *)
Lemma blank_cells_not_dropped :
  extract_symbols blank_table = Ok ["TCS.NS"; ".NS"; ".NS"]
  /\ extract_symbols blank_table <> Ok ["TCS.NS"].
Proof. split; [reflexivity | discriminate]. Qed.

(** C6, as stated, fails: the list [extract_symbols] returns repeats a
    symbol that the column repeats. *)
Lemma extract_symbols_keeps_duplicates :
  exists syms, extract_symbols repeated_table = Ok syms /\ ~ NoDup syms.
Proof.
  exists ["TCS.NS"; "INFY.NS"; "TCS.NS"]. split; [reflexivity|].
  intros H. inversion H as [|? ? Hnotin _]; subst.
  apply Hnotin. right. now left.
Qed.

(* ================================================================== *)
(** ** Facts on [fetch_csv] *)

Section FetchFacts.

Variable http : nat -> string -> attempt.

Lemma requests_app tr1 tr2 :
  requests (tr1 ++ tr2) = requests tr1 + requests tr2.
Proof. unfold requests. now rewrite filter_app, length_app. Qed.

Lemma requests_retried url sleep k : requests (retried url sleep k) = k.
Proof.
  induction k as [|k IH]; [reflexivity|].
  cbn. unfold requests in IH. now rewrite IH.
Qed.

Lemma try_fetch_fails url tr e :
  attempt_failure (http (requests tr) url) = Some e ->
  try_fetch http url tr = (Raise e, tr ++ [HttpGet url]).
Proof.
  unfold try_fetch, EffectMonad.bind, get_and_parse, attempt_failure.
  destruct (http (requests tr) url) as [e'|df].
  - now intros [= ->].
  - destruct (empty df); [now intros [= <-] | discriminate].
Qed.

Lemma try_fetch_parses url tr df :
  http (requests tr) url = Parsed df -> empty df = false ->
  try_fetch http url tr = (Ok (Some df), tr ++ [HttpGet url]).
Proof.
  unfold try_fetch, EffectMonad.bind, get_and_parse. now intros -> ->.
Qed.

Lemma fetch_loop_step_fails url retries sleep a rest tr e :
  (0 <= sleep)%Z ->
  attempt_failure (http (requests tr) url) = Some e ->
  fetch_loop http url retries sleep (a :: rest) tr =
  if (a <? retries)%Z
  then fetch_loop http url retries sleep rest
         ((tr ++ [HttpGet url]) ++ [Sleep sleep])
  else (Raise (fetch_error url e), tr ++ [HttpGet url]).
Proof.
  intros Hsleep E. cbn [fetch_loop]. unfold catch.
  rewrite (try_fetch_fails _ _ _ E).
  destruct (a <? retries)%Z; [|reflexivity].
  unfold EffectMonad.bind, time_sleep.
  now replace (sleep <? 0)%Z with false by (symmetry; apply Z.ltb_ge; lia).
Qed.

(** A failed attempt that is not the last, with a negative [sleep]: the
    [ValueError] of [time.sleep] leaves the function. *)
Lemma fetch_loop_step_negative_sleep url retries sleep a rest tr e :
  (sleep < 0)%Z -> (a < retries)%Z ->
  attempt_failure (http (requests tr) url) = Some e ->
  fetch_loop http url retries sleep (a :: rest) tr =
  (Raise NEGATIVE_SLEEP, tr ++ [HttpGet url]).
Proof.
  intros Hsleep Ha E. cbn [fetch_loop]. unfold catch.
  rewrite (try_fetch_fails _ _ _ E).
  replace (a <? retries)%Z with true by (symmetry; apply Z.ltb_lt; lia).
  unfold EffectMonad.bind, time_sleep.
  now replace (sleep <? 0)%Z with true by (symmetry; apply Z.ltb_lt; lia).
Qed.

Lemma fetch_loop_step_parses url retries sleep a rest tr df :
  http (requests tr) url = Parsed df -> empty df = false ->
  fetch_loop http url retries sleep (a :: rest) tr =
  (Ok (Some df), tr ++ [HttpGet url]).
Proof.
  intros Hok Hne. cbn [fetch_loop]. unfold catch.
  now rewrite (try_fetch_parses _ _ _ Hok Hne).
Qed.

Lemma range_from_S a n : range_from a (S n) = a :: range_from (a + 1) n.
Proof. reflexivity. Qed.

Lemma requests_after_retry tr url sleep :
  requests ((tr ++ [HttpGet url]) ++ [Sleep sleep]) = S (requests tr).
Proof. rewrite !requests_app. cbn. lia. Qed.

(** [k] failures, then a usable table, with attempts to spare. *)
Lemma fetch_loop_succeeds url retries sleep df :
  (0 <= sleep)%Z ->
  forall k n a tr,
    k < n -> (a + Z.of_nat n = retries + 1)%Z ->
    (forall i, i < k -> attempt_failure (http (requests tr + i) url) <> None) ->
    http (requests tr + k) url = Parsed df -> empty df = false ->
    fetch_loop http url retries sleep (range_from a n) tr =
    (Ok (Some df), tr ++ retried url sleep k ++ [HttpGet url]).
Proof.
  intros Hsleep.
  induction k as [|k IH]; intros n a tr Hk Ha Hfail Hok Hne;
    (destruct n as [|n]; [lia|]); rewrite range_from_S.
  - rewrite Nat.add_0_r in Hok. now apply fetch_loop_step_parses.
  - destruct (attempt_failure (http (requests tr) url)) as [e|] eqn:E.
    2:{ exfalso. apply (Hfail 0); [lia|]. now rewrite Nat.add_0_r. }
    rewrite (fetch_loop_step_fails _ _ _ _ _ _ _ Hsleep E).
    replace (a <? retries)%Z with true by (symmetry; apply Z.ltb_lt; lia).
    rewrite (IH n (a + 1)%Z).
    + cbn [retried]. now rewrite <- !app_assoc.
    + lia.
    + lia.
    + intros i Hi. rewrite requests_after_retry.
      replace (S (requests tr) + i) with (requests tr + S i) by lia.
      apply Hfail. lia.
    + rewrite requests_after_retry.
      now replace (S (requests tr) + k) with (requests tr + S k) by lia.
    + assumption.
Qed.

(** Every attempt of the budget fails. *)
Lemma fetch_loop_exhausted url retries sleep :
  (0 <= sleep)%Z ->
  forall n a tr,
    (a + Z.of_nat (S n) = retries + 1)%Z ->
    (forall i, i <= n -> attempt_failure (http (requests tr + i) url) <> None) ->
    exists last,
      attempt_failure (http (requests tr + n) url) = Some last /\
      fetch_loop http url retries sleep (range_from a (S n)) tr =
      (Raise (fetch_error url last), tr ++ retried url sleep n ++ [HttpGet url]).
Proof.
  intros Hsleep.
  induction n as [|n IH]; intros a tr Ha Hfail; rewrite range_from_S;
    (destruct (attempt_failure (http (requests tr) url)) as [e|] eqn:E;
     [|exfalso; apply (Hfail 0); [lia | now rewrite Nat.add_0_r]]);
    rewrite (fetch_loop_step_fails _ _ _ _ _ _ _ Hsleep E).
  - replace (a <? retries)%Z with false by (symmetry; apply Z.ltb_ge; lia).
    exists e. rewrite Nat.add_0_r. split; [assumption | reflexivity].
  - replace (a <? retries)%Z with true by (symmetry; apply Z.ltb_lt; lia).
    destruct (IH (a + 1)%Z ((tr ++ [HttpGet url]) ++ [Sleep sleep]))
      as [last [Hlast Hrun]].
    + lia.
    + intros i Hi. rewrite requests_after_retry.
      replace (S (requests tr) + i) with (requests tr + S i) by lia.
      apply Hfail. lia.
    + exists last. split.
      * rewrite requests_after_retry in Hlast.
        now replace (requests tr + S n) with (S (requests tr) + n) by lia.
      * rewrite Hrun. cbn [retried]. now rewrite <- !app_assoc.
Qed.

Lemma fetch_csv_succeeds url retries sleep tr k df :
  (0 <= sleep)%Z ->
  (Z.of_nat k < retries)%Z ->
  (forall i, i < k -> attempt_failure (http (requests tr + i) url) <> None) ->
  http (requests tr + k) url = Parsed df -> empty df = false ->
  fetch_csv http url retries sleep tr =
  (Ok (Some df), tr ++ retried url sleep k ++ [HttpGet url]).
Proof.
  intros Hsleep Hk Hfail Hok Hne. unfold fetch_csv, py_range.
  apply fetch_loop_succeeds; try assumption; lia.
Qed.

(** With a negative [sleep] there is no second attempt: when the first
    attempt fails and the budget has more than one, the [ValueError] of
    [time.sleep] leaves the function after one request. *)
Lemma fetch_csv_negative_sleep url retries sleep tr e :
  (2 <= retries)%Z -> (sleep < 0)%Z ->
  attempt_failure (http (requests tr) url) = Some e ->
  fetch_csv http url retries sleep tr =
  (Raise NEGATIVE_SLEEP, tr ++ [HttpGet url]).
Proof.
  intros Hretries Hsleep E. unfold fetch_csv, py_range.
  replace (Z.to_nat (retries + 1 - 1)) with (S (Z.to_nat retries - 1)) by lia.
  rewrite range_from_S.
  apply (fetch_loop_step_negative_sleep url retries sleep 1 _ tr e);
    [exact Hsleep | lia | exact E].
Qed.

End FetchFacts.


(** C4, at a budget without attempts.  The claim has [fetch_csv] either
    return a parsed table or raise once the budget is used up.  With
    [retries <= 0] the loop of line 28 has no iteration, so the [raise] of
    line 44, which sits inside the loop, is never reached: the function
    makes no request, raises nothing, and falls off its end, returning
    [None] where its signature announces a [pd.DataFrame]. *)
Theorem fetch_csv_without_budget (http : nat -> string -> attempt)
    (url : string) (retries sleep : Z) (tr : trace) :
  (retries <= 0)%Z ->
  exists tr',
    fetch_csv http url retries sleep tr = (Ok None, tr')
    /\ tr' = tr
    /\ requests tr' = requests tr.
Proof.
  intros H. exists tr. split; [|split; reflexivity].
  unfold fetch_csv, py_range.
  replace (Z.to_nat (retries + 1 - 1)) with 0 by lia. reflexivity.
Qed.

Lemma fetch_csv_without_budget_witness :
  fetch_csv flaky_network NIFTY500_CSV 0 1 [] = (Ok None, []).
Proof.
  destruct (fetch_csv_without_budget flaky_network NIFTY500_CSV 0 1 [])
    as [tr' [Hrun [-> _]]]; [lia | exact Hrun].
Defined.

(* ================================================================== *)
(** ** Facts on the stable sort *)

Section StableSortFacts.

Context {A : Type}.
Variable before : A -> A -> bool.

Lemma insert_Permutation x l : Permutation (insert before x l) (x :: l).
Proof.
  induction l as [|y l IH]; cbn [insert]; [reflexivity|].
  destruct (before y x); [|reflexivity].
  rewrite IH. apply perm_swap.
Qed.

Lemma stable_sort_Permutation l : Permutation (stable_sort before l) l.
Proof.
  induction l as [|x l IH]; cbn [stable_sort]; [reflexivity|].
  rewrite insert_Permutation. now constructor.
Qed.

Lemma stable_sort_length l : List.length (stable_sort before l) = List.length l.
Proof. apply Permutation_length, stable_sort_Permutation. Qed.

(** Elements that [before] never separates keep their order. *)
Lemma insert_filter (keep : A -> bool) x l :
  (forall y, keep y = true -> keep x = true -> before y x = false) ->
  filter keep (insert before x l) = filter keep (x :: l).
Proof.
  intros Hkeep. induction l as [|y l IH]; cbn [insert]; [reflexivity|].
  destruct (before y x) eqn:E; [|reflexivity].
  cbn [filter] in *. rewrite IH.
  destruct (keep y) eqn:Ey, (keep x) eqn:Ex; try reflexivity.
  rewrite Hkeep in E by (assumption || reflexivity). discriminate.
Qed.

Lemma stable_sort_filter (keep : A -> bool) l :
  (forall x y, keep y = true -> keep x = true -> before y x = false) ->
  filter keep (stable_sort before l) = filter keep l.
Proof.
  intros Hkeep. induction l as [|x l IH]; cbn [stable_sort]; [reflexivity|].
  rewrite insert_filter by apply Hkeep. cbn [filter]. now rewrite IH.
Qed.

End StableSortFacts.

Section SortCapsFacts.

Lemma insert_cap_Sorted x l :
  Sorted cap_ge l ->
  Sorted cap_ge (insert (fun y x => (snd x <? snd y)%Z) x l).
Proof.
  induction 1 as [|y l Hl IH Hy]; cbn [insert].
  - repeat constructor.
  - destruct (Z.ltb_spec (snd x) (snd y)) as [Hlt|Hge].
    + constructor; [exact IH|].
      destruct l as [|z l]; cbn [insert].
      * constructor. unfold cap_ge. lia.
      * destruct (Z.ltb_spec (snd x) (snd z)); constructor.
        -- now inversion Hy.
        -- unfold cap_ge. lia.
    + constructor; [now constructor|]. constructor. exact Hge.
Qed.

Lemma sort_caps_Sorted caps : Sorted cap_ge (sort_caps caps).
Proof.
  unfold sort_caps. induction caps as [|x caps IH]; cbn [stable_sort].
  - constructor.
  - now apply insert_cap_Sorted.
Qed.

Lemma cap_ge_trans : Relations_1.Transitive cap_ge.
Proof. intros a b c. unfold cap_ge. lia. Qed.

Lemma sort_caps_StronglySorted caps : StronglySorted cap_ge (sort_caps caps).
Proof.
  apply Sorted_StronglySorted; [exact cap_ge_trans | apply sort_caps_Sorted].
Qed.

Lemma sort_caps_Permutation caps : Permutation (sort_caps caps) caps.
Proof. apply stable_sort_Permutation. Qed.

Lemma sort_caps_length caps : List.length (sort_caps caps) = List.length caps.
Proof. apply stable_sort_length. Qed.

(** Equal capitalizations keep the order in which they were collected. *)
Lemma sort_caps_stable caps z :
  filter (fun p => (snd p =? z)%Z) (sort_caps caps) =
  filter (fun p => (snd p =? z)%Z) caps.
Proof.
  apply stable_sort_filter. intros x y Hy Hx.
  apply Z.eqb_eq in Hx, Hy. apply Z.ltb_ge. lia.
Qed.

End SortCapsFacts.

(* ================================================================== *)
(** ** Facts on the ranking loop *)

Section RankFacts.

Variable yf_Ticker : string -> result Ticker.

Lemma rankable_present s :
  rankable yf_Ticker s = true ->
  capitalization yf_Ticker s = CapPresent (cap_value yf_Ticker s) /\
  cap_value yf_Ticker s <> 0%Z.
Proof.
  unfold rankable, cap_value.
  destruct (capitalization yf_Ticker s) as [e| |z]; try discriminate.
  intros H. split; [reflexivity|].
  intros ->. discriminate.
Qed.

(** Line 79 asks for the attribute named [market _cap], with a space.
    Unless the object has an attribute of that very name, what it holds
    under any other name plays no part, and the value is the one that
    [info] has under [marketCap]. *)
Lemma market_cap_from_info t fi d :
  fast_info t = Ok fi -> PyDict.get fi "market _cap" = None ->
  info t = Ok d ->
  market_cap (Ok t) = Ok (dict_get d "marketCap").
Proof.
  intros Hfi Hnone Hinfo. unfold market_cap, getattr.
  cbn [ResultMonad.bind]. rewrite Hfi. cbn [ResultMonad.bind].
  rewrite Hnone, Hinfo. reflexivity.
Qed.

(** One turn of the loop of lines 76-85. *)
Lemma collect_step s caps tr :
  catch (cap <- lookup yf_Ticker s ;; ret (append_if_truthy caps s cap))
        (fun _ => ret caps) tr =
  (Ok (caps ++ collected yf_Ticker [s]), tr ++ [TickerLookup s]).
Proof.
  unfold catch, EffectMonad.bind, lookup, emit, lift, ret.
  unfold collected, rankable, cap_value, capitalization. cbn [filter].
  destruct (market_cap (yf_Ticker s)) as [[|z]|e] eqn:E; cbn.
  - now rewrite app_nil_r.
  - destruct (z =? 0)%Z; cbn; rewrite ?E; [now rewrite app_nil_r | reflexivity].
  - now rewrite app_nil_r.
Qed.

Lemma collected_cons s remaining :
  collected yf_Ticker (s :: remaining) =
  collected yf_Ticker [s] ++ collected yf_Ticker remaining.
Proof.
  unfold collected. cbn [filter].
  now destruct (rankable yf_Ticker s).
Qed.

Lemma collect_caps_run remaining : forall caps tr,
  collect_caps yf_Ticker remaining caps tr =
  (Ok (caps ++ collected yf_Ticker remaining), tr ++ map TickerLookup remaining).
Proof.
  induction remaining as [|s remaining IH]; intros caps tr.
  - cbn. now rewrite !app_nil_r.
  - cbn [collect_caps]. unfold EffectMonad.bind at 1.
    rewrite collect_step, IH, (collected_cons s remaining).
    cbn [map]. now rewrite <- !app_assoc.
Qed.

Lemma rank_run remaining tr :
  rank yf_Ticker remaining tr =
  (Ok (sort_caps (collected yf_Ticker remaining)),
   tr ++ map TickerLookup remaining).
Proof.
  unfold rank, EffectMonad.bind. now rewrite collect_caps_run.
Qed.

Lemma collected_length remaining :
  List.length (collected yf_Ticker remaining) =
  List.length (filter (rankable yf_Ticker) remaining).
Proof. apply length_map. Qed.

Lemma collected_symbols remaining :
  map fst (collected yf_Ticker remaining) = filter (rankable yf_Ticker) remaining.
Proof.
  unfold collected. rewrite map_map. cbn [fst]. apply map_id.
Qed.

Lemma collected_In remaining s z :
  In (s, z) (collected yf_Ticker remaining) ->
  In s remaining /\ rankable yf_Ticker s = true /\ z = cap_value yf_Ticker s.
Proof.
  unfold collected. rewrite in_map_iff. intros [s' [[= <- <-] H]].
  apply filter_In in H. tauto.
Qed.

Lemma ranked_symbol_rankable remaining s :
  In s (map fst (sort_caps (collected yf_Ticker remaining))) ->
  In s remaining /\ rankable yf_Ticker s = true.
Proof.
  intros H.
  apply (Permutation_in _ (Permutation_map fst (sort_caps_Permutation _))) in H.
  rewrite collected_symbols in H. now apply filter_In in H.
Qed.

End RankFacts.

Lemma collected_ext (yf yf' : string -> result Ticker) remaining :
  (forall s, In s remaining -> capitalization yf s = capitalization yf' s \/
                               (rankable yf s = false /\ rankable yf' s = false)) ->
  collected yf remaining = collected yf' remaining.
Proof.
  induction remaining as [|s remaining IH]; intros H; [reflexivity|].
  rewrite (collected_cons yf), (collected_cons yf').
  rewrite IH by (intros x Hx; apply H; now right). f_equal.
  unfold collected. cbn [filter].
  destruct (H s (or_introl eq_refl)) as [E|[E E']].
  - unfold rankable, cap_value. rewrite E.
    destruct (capitalization yf' s) as [e| |z] eqn:E'; try reflexivity.
    destruct (z =? 0)%Z; cbn; [reflexivity|]. now rewrite E, E'.
  - now rewrite E, E'.
Qed.

(* ================================================================== *)
(** ** Facts on [ensure_min_count] *)

Section EnsureFacts.

Variable http : nat -> string -> attempt.
Variable yf_Ticker : string -> result Ticker.

Lemma ensure_min_count_enough bucket symbols min_count tr :
  (min_count <= Z.of_nat (List.length (dedup symbols)))%Z ->
  ensure_min_count http yf_Ticker bucket symbols min_count tr =
  (Ok (dedup symbols), tr).
Proof.
  intros H. unfold ensure_min_count.
  replace (Z.of_nat (List.length (dedup symbols)) >=? min_count)%Z with true
    by (symmetry; apply Z.geb_le; lia).
  reflexivity.
Qed.

Lemma slice_to_nonneg {A : Type} (n : Z) (l : list A) :
  (0 <= n)%Z -> slice_to n l = firstn (Z.to_nat n) l.
Proof.
  intros H. unfold slice_to.
  now replace (0 <=? n)%Z with true by (symmetry; apply Z.leb_le; lia).
Qed.

Lemma ensure_min_count_top_up bucket symbols min_count tr reference :
  (Z.of_nat (List.length (dedup symbols)) < min_count)%Z ->
  reference_obtained http bucket symbols min_count tr reference ->
  exists tr',
    ensure_min_count http yf_Ticker bucket symbols min_count tr =
    (Ok (dedup symbols ++
         map fst (firstn (Z.to_nat (min_count - Z.of_nat (List.length (dedup symbols))))
                    (sort_caps (collected yf_Ticker
                                  (not_in (dedup symbols) reference))))),
     tr').
Proof.
  intros Hlt [df [tr1 [Hfetch Hextract]]]. unfold ensure_min_count.
  replace (Z.of_nat (List.length (dedup symbols)) >=? min_count)%Z with false
    by (symmetry; rewrite Z.geb_leb; apply Z.leb_gt; lia).
  unfold EffectMonad.bind at 1. unfold emit at 1.
  unfold EffectMonad.bind at 1. rewrite Hfetch.
  unfold EffectMonad.bind at 1. unfold lift at 1.
  cbn [extract_symbols_of]. rewrite Hextract.
  unfold EffectMonad.bind at 1. rewrite rank_run.
  unfold ret. rewrite slice_to_nonneg by lia.
  eexists. reflexivity.
Qed.

(** Whatever path is taken, a returned list starts with the deduplicated
    input. *)
Lemma ensure_min_count_prefix bucket symbols min_count tr result tr' :
  ensure_min_count http yf_Ticker bucket symbols min_count tr = (Ok result, tr') ->
  exists top, result = dedup symbols ++ top.
Proof.
  unfold ensure_min_count.
  destruct (Z.of_nat (List.length (dedup symbols)) >=? min_count)%Z.
  - intros [= <- _]. exists []. now rewrite app_nil_r.
  - unfold EffectMonad.bind at 1. unfold emit at 1.
    unfold EffectMonad.bind at 1.
    destruct (fetch_csv http NIFTY500_CSV 3 1 _) as [[df|e] tr1]; [|discriminate].
    unfold EffectMonad.bind at 1. unfold lift at 1.
    destruct (extract_symbols_of df) as [reference|e]; [|discriminate].
    unfold EffectMonad.bind at 1. rewrite rank_run. unfold ret.
    intros [= <- _]. eexists. reflexivity.
Qed.

End EnsureFacts.

Section PrefixFacts.

Context {A : Type}.

Lemma firstn_prefix (l l' : list A) : firstn (List.length l) (l ++ l') = l.
Proof. induction l as [|x l IH]; cbn; [now destruct l' | now rewrite IH]. Qed.

Lemma skipn_prefix (l l' : list A) : skipn (List.length l) (l ++ l') = l'.
Proof. induction l as [|x l IH]; cbn; [reflexivity | exact IH]. Qed.

Lemma firstn_incl (n : nat) (l : list A) x : In x (firstn n l) -> In x l.
Proof.
  revert l. induction n as [|n IH]; intros [|y l]; cbn; try tauto.
  intros [H|H]; [now left | right; now apply IH].
Qed.

End PrefixFacts.

(* ================================================================== *)
(** ** The claims on ranking and top-up *)

Section ProviderFacts.

Variable yf_Ticker : string -> result Ticker.

Lemma not_in_complement base reference :
  not_in base reference = complement base reference.
Proof.
  unfold not_in, complement. apply filter_ext. intros s.
  destruct (in_dec string_dec s base) as [H|H].
  - apply (proj2 (mem_In s base)) in H. now rewrite H.
  - apply (proj2 (mem_false s base)) in H. now rewrite H.
Qed.

Lemma complement_In base reference s :
  In s (complement base reference) <-> In s reference /\ ~ In s base.
Proof.
  unfold complement. rewrite filter_In.
  destruct (in_dec string_dec s base); intuition discriminate.
Qed.

Lemma no_value_getattr fi attr :
  no_value (PyDict.get fi attr) = true -> getattr fi attr PyNone = PyNone.
Proof.
  unfold no_value, getattr.
  destruct (PyDict.get fi attr) as [[|z]|]; (reflexivity || discriminate).
Qed.

(** Where the fast path has nothing to give, the lookup of lines 78-81
    yields what the provider holds. *)
Lemma capitalization_provider_cap s :
  fast_path_empty yf_Ticker s = true ->
  capitalization yf_Ticker s = provider_cap (yf_Ticker s).
Proof.
  unfold fast_path_empty, capitalization, provider_cap, market_cap.
  destruct (yf_Ticker s) as [t|e]; [|reflexivity].
  cbn [ResultMonad.bind].
  destruct (fast_info t) as [fi|e]; [|reflexivity].
  cbn [ResultMonad.bind].
  intros H. apply andb_true_iff in H as [Hname Hslip].
  rewrite (no_value_getattr _ _ Hslip).
  unfold no_value in Hname.
  destruct (PyDict.get fi "market_cap") as [[|z]|]; try discriminate;
    (destruct (info t) as [d|e]; [|reflexivity]);
    cbn [ResultMonad.bind]; unfold dict_get;
    now destruct (PyDict.get d "marketCap") as [[|z]|].
Qed.

(** The candidates collected with a given capitalization, in order. *)
Lemma collected_with_cap remaining z :
  (forall s, In s remaining ->
     capitalization yf_Ticker s = provider_cap (yf_Ticker s)) ->
  map fst (filter (fun p => (snd p =? z)%Z) (collected yf_Ticker remaining))
  = filter (fun s =>
              match provider_cap (yf_Ticker s) with
              | CapPresent z' => (z' =? z)%Z && negb (z =? 0)%Z
              | _ => false
              end) remaining.
Proof.
  induction remaining as [|s remaining IH]; intros Hcap; [reflexivity|].
  rewrite (collected_cons yf_Ticker s remaining), filter_app, map_app.
  rewrite IH by (intros x Hx; apply Hcap; now right).
  cbn [filter]. rewrite <- (Hcap s (or_introl eq_refl)).
  assert (Hhead :
    map fst (filter (fun p => (snd p =? z)%Z) (collected yf_Ticker [s]))
    = if match capitalization yf_Ticker s with
         | CapPresent z' => (z' =? z)%Z && negb (z =? 0)%Z
         | _ => false
         end
      then [s] else []).
  { replace (collected yf_Ticker [s])
      with (if rankable yf_Ticker s
            then [(s, cap_value yf_Ticker s)] else [])
      by (unfold collected; cbn [filter];
          now destruct (rankable yf_Ticker s)).
    unfold rankable, cap_value.
    destruct (capitalization yf_Ticker s) as [e| |z']; try reflexivity.
    destruct (z' =? 0)%Z eqn:E0; cbn [negb map filter snd].
    - destruct (z' =? z)%Z eqn:Ez; [|reflexivity].
      apply Z.eqb_eq in E0, Ez. subst z' z. reflexivity.
    - destruct (z' =? z)%Z eqn:Ez; [|reflexivity].
      apply Z.eqb_eq in Ez. subst z'. now rewrite E0. }
  rewrite Hhead.
  now destruct (match capitalization yf_Ticker s with
                | CapPresent z' => (z' =? z)%Z && negb (z =? 0)%Z
                | _ => false
                end).
Qed.

End ProviderFacts.

(** C3, as stated, fails on a capitalization of 0.  The provider
    holds the capitalization 0 for G.NS: it is not absent and the lookup
    does not fail, so the claim has G.NS in the ranking; the ranking
    leaves it out. *)
Lemma present_zero_cap_is_not_ranked :
  provider_cap (sample_provider "G.NS") = CapPresent 0
  /\ rank sample_provider ["C.NS"; "G.NS"; "E.NS"] []
     = (Ok [("E.NS", 900%Z); ("C.NS", 500%Z)],
        [TickerLookup "C.NS"; TickerLookup "G.NS"; TickerLookup "E.NS"])
  /\ ~ In "G.NS" (map fst [("E.NS", 900%Z); ("C.NS", 500%Z)]).
Proof.
  split; [reflexivity|]. split; [reflexivity|].
  cbn. intros [H|[H|[]]]; discriminate.
Qed.

(** C3, as the code has it.  The provider holds a capitalization, or
    none, for every symbol, and answers for the candidates through the
    secondary lookup.  The ranking never raises and looks every candidate
    up, in order, a failed lookup included.  Its output is sorted
    descending by capitalization, equal values in the order of the
    candidates.  Its symbols are, up to order, the candidates whose
    capitalization is a number other than 0, each with that number.  A
    candidate whose capitalization is absent, or is 0, or whose lookup
    raises, is not in the output. *)
Theorem rank_contract (yf_Ticker : string -> result Ticker)
    (remaining : list string) (tr : trace) :
  forallb (fast_path_empty yf_Ticker) remaining = true ->
  exists ranked,
    rank yf_Ticker remaining tr = (Ok ranked, tr ++ map TickerLookup remaining)
    /\ StronglySorted cap_ge ranked
    /\ (forall z,
          map fst (filter (fun p => (snd p =? z)%Z) ranked)
          = filter (fun s =>
                      match provider_cap (yf_Ticker s) with
                      | CapPresent z' => (z' =? z)%Z && negb (z =? 0)%Z
                      | _ => false
                      end) remaining)
    /\ Permutation (map fst ranked)
         (filter (fun s => counts (provider_cap (yf_Ticker s))) remaining)
    /\ (forall s z, In (s, z) ranked ->
          In s remaining /\ provider_cap (yf_Ticker s) = CapPresent z /\
          z <> 0%Z)
    /\ (forall s, provider_cap (yf_Ticker s) = CapAbsent ->
          ~ In s (map fst ranked))
    /\ (forall s, provider_cap (yf_Ticker s) = CapPresent 0 ->
          ~ In s (map fst ranked))
    /\ (forall s e, provider_cap (yf_Ticker s) = LookupFails e ->
          ~ In s (map fst ranked)).
Proof.
  intros Hfast.
  assert (Hcap : forall s, In s remaining ->
            capitalization yf_Ticker s = provider_cap (yf_Ticker s)).
  { intros s Hs. apply capitalization_provider_cap.
    rewrite forallb_forall in Hfast. now apply Hfast. }
  exists (sort_caps (collected yf_Ticker remaining)).
  split; [apply rank_run|].
  split; [apply sort_caps_StronglySorted|].
  split.
  { intros z. rewrite sort_caps_stable. now apply collected_with_cap. }
  split.
  { apply (Permutation_trans
             (Permutation_map fst (sort_caps_Permutation _))).
    rewrite collected_symbols.
    rewrite (filter_ext_in (rankable yf_Ticker)
               (fun s => counts (provider_cap (yf_Ticker s)))); [reflexivity|].
    intros s Hs. unfold rankable. now rewrite (Hcap s Hs). }
  assert (Hout : forall s, In s (map fst (sort_caps
                                  (collected yf_Ticker remaining))) ->
                 counts (provider_cap (yf_Ticker s)) = true).
  { intros s H. apply ranked_symbol_rankable in H as [Hin H].
    unfold rankable in H. now rewrite (Hcap s Hin) in H. }
  split.
  { intros s z H.
    apply (Permutation_in _ (sort_caps_Permutation _)) in H.
    apply collected_In in H as [Hin [Hr ->]].
    apply rankable_present in Hr as [Hr Hnz].
    rewrite (Hcap s Hin) in Hr. now repeat split. }
  split; [|split].
  - intros s Habs H. apply Hout in H. rewrite Habs in H. discriminate.
  - intros s Hzero H. apply Hout in H. rewrite Hzero in H. discriminate.
  - intros s e Hfail H. apply Hout in H. rewrite Hfail in H. discriminate.
Qed.

Lemma rank_contract_witness :
  exists ranked tr',
    rank sample_provider ["C.NS"; "A.NS"; "G.NS"; "E.NS"; "H.NS"] []
    = (Ok ranked, tr')
    /\ Permutation (map fst ranked) ["C.NS"; "E.NS"].
Proof.
  destruct (rank_contract sample_provider
              ["C.NS"; "A.NS"; "G.NS"; "E.NS"; "H.NS"] [] eq_refl)
    as [ranked [Hrun [_ [_ [Hperm _]]]]].
  exists ranked. eexists. split; [exact Hrun | exact Hperm].
Defined.

Lemma capitalization_without_cap yf_Ticker s :
  capitalization (without_cap yf_Ticker s) s = CapAbsent.
Proof.
  unfold capitalization, without_cap. now rewrite String.eqb_refl.
Qed.

Lemma capitalization_without_cap_other yf_Ticker s s' :
  s' <> s ->
  capitalization (without_cap yf_Ticker s) s' = capitalization yf_Ticker s'.
Proof.
  intros H. unfold capitalization, without_cap.
  now destruct (String.eqb_spec s' s).
Qed.

(** C10. A capitalization that is present with the value 0 excludes the
    candidate exactly as an absent one does: the ranking is the one
    obtained from a provider that has no capitalization for the symbol,
    and the symbol is not in it. *)
Theorem zero_cap_excluded (yf_Ticker : string -> result Ticker)
    (remaining : list string) (tr : trace) (s : string) :
  capitalization yf_Ticker s = CapPresent 0 ->
  capitalization (without_cap yf_Ticker s) s = CapAbsent
  /\ rank yf_Ticker remaining tr = rank (without_cap yf_Ticker s) remaining tr
  /\ exists ranked tr',
       rank yf_Ticker remaining tr = (Ok ranked, tr') /\
       ~ In s (map fst ranked).
Proof.
  intros Hzero. split; [apply capitalization_without_cap|]. split.
  - rewrite !rank_run. do 3 f_equal. apply collected_ext.
    intros s' _. destruct (String.eqb_spec s' s) as [->|N].
    + right. unfold rankable.
      now rewrite Hzero, capitalization_without_cap.
    + left. symmetry. now apply capitalization_without_cap_other.
  - rewrite rank_run. do 2 eexists. split; [reflexivity|].
    intros H. apply ranked_symbol_rankable in H as [_ H].
    unfold rankable in H. rewrite Hzero in H. discriminate.
Qed.

Lemma zero_cap_excluded_witness :
  capitalization sample_provider "G.NS" = CapPresent 0 /\
  rank sample_provider ["C.NS"; "G.NS"; "E.NS"] [] =
  rank (without_cap sample_provider "G.NS") ["C.NS"; "G.NS"; "E.NS"] [].
Proof.
  split; [reflexivity|].
  apply (zero_cap_excluded sample_provider ["C.NS"; "G.NS"; "E.NS"] [] "G.NS").
  reflexivity.
Defined.

(** C5. Short-circuit on sufficiency: when the deduplicated list has at
    least [min_count] symbols, [ensure_min_count] returns it as it is and
    leaves the trace as it found it: no console line, no request for the
    reference universe, no market-data lookup.  A list without duplicates
    is returned unchanged. *)
Theorem short_circuit_on_sufficiency (http : nat -> string -> attempt)
    (yf_Ticker : string -> result Ticker) (bucket : string)
    (symbols : list string) (min_count : Z) (tr : trace) :
  (min_count <= Z.of_nat (List.length (dedup symbols)))%Z ->
  exists tr',
    ensure_min_count http yf_Ticker bucket symbols min_count tr =
    (Ok (dedup symbols), tr')
    /\ tr' = tr
    /\ filter is_get tr' = filter is_get tr
    /\ filter is_lookup tr' = filter is_lookup tr
    /\ (NoDup symbols -> dedup symbols = symbols).
Proof.
  intros H. exists tr. split; [now apply ensure_min_count_enough|].
  repeat split. apply dedup_NoDup_id.
Qed.

Lemma short_circuit_on_sufficiency_witness :
  ensure_min_count flaky_network sample_provider "midcap"
    ["A.NS"; "B.NS"; "C.NS"] 3 [] = (Ok ["A.NS"; "B.NS"; "C.NS"], []).
Proof.
  destruct (short_circuit_on_sufficiency flaky_network sample_provider
              "midcap" ["A.NS"; "B.NS"; "C.NS"] 3 [])
    as [tr' [Hrun [-> _]]].
  - cbn. lia.
  - exact Hrun.
Defined.

(** C1, as stated, fails on a capitalization of 0.  The base has six
    symbols and the minimum is seven; the complement is G.NS, whose
    capitalization is present with the value 0, and H.NS, which has none.
    With one cap-present candidate the claim gives the length
    [max(6, min(7, 6 + 1)) = 7]; the code returns the base, of length 6. *)
Lemma present_zero_cap_is_not_counted :
  complement ["A.NS"; "B.NS"; "C.NS"; "D.NS"; "E.NS"; "F.NS"]
    ["A.NS"; "B.NS"; "C.NS"; "D.NS"; "E.NS"; "F.NS"; "G.NS"; "H.NS"]
  = ["G.NS"; "H.NS"]
  /\ provider_cap (sample_provider "G.NS") = CapPresent 0
  /\ provider_cap (sample_provider "H.NS") = CapAbsent
  /\ (exists tr',
        ensure_min_count flaky_network sample_provider "largecap"
          ["A.NS"; "B.NS"; "C.NS"; "D.NS"; "E.NS"; "F.NS"] 7 []
        = (Ok ["A.NS"; "B.NS"; "C.NS"; "D.NS"; "E.NS"; "F.NS"], tr'))
  /\ Z.of_nat
       (List.length ["A.NS"; "B.NS"; "C.NS"; "D.NS"; "E.NS"; "F.NS"])
     <> Z.max 6 (Z.min 7 (6 + 1)).
Proof.
  split; [reflexivity|]. split; [reflexivity|]. split; [reflexivity|].
  split; [eexists; cbv; reflexivity | cbn; lia].
Qed.

(** C1, as the code has it.  [base] is the deduplicated input (the input
    itself when it has no duplicates); the complement holds the symbols
    of the reference universe that are not in [base]; a candidate of the
    complement can be ranked when the provider, answering through the
    secondary lookup, holds for it a capitalization other than 0.
    Whenever the short-circuit applies or the reference universe is
    obtained, [ensure_min_count] returns a list that starts with [base],
    so contains every symbol of it, and whose length is
    [max(len(base), min(min_count, len(base) + n))], [n] being the number
    of candidates that can be ranked; when [len(base) + n] is below
    [min_count], so is the length of the result, and nothing is raised. *)
Theorem top_up_preserves_and_bounds (http : nat -> string -> attempt)
    (yf_Ticker : string -> result Ticker) (bucket : string)
    (symbols : list string) (min_count : Z) (tr : trace)
    (reference : list string) :
  (min_count <= Z.of_nat (List.length (dedup symbols)))%Z \/
  (reference_obtained http bucket symbols min_count tr reference /\
   forallb (fast_path_empty yf_Ticker)
     (complement (dedup symbols) reference) = true) ->
  exists result tr',
    ensure_min_count http yf_Ticker bucket symbols min_count tr
    = (Ok result, tr')
    /\ firstn (List.length (dedup symbols)) result = dedup symbols
    /\ (forall s, In s (dedup symbols) -> In s result)
    /\ Z.of_nat (List.length result) =
       Z.max (Z.of_nat (List.length (dedup symbols)))
         (Z.min min_count
            (Z.of_nat (List.length (dedup symbols)) +
             Z.of_nat (List.length
                         (filter (fun s => counts (provider_cap (yf_Ticker s)))
                            (complement (dedup symbols) reference)))))
    /\ ((Z.of_nat (List.length (dedup symbols)) +
         Z.of_nat (List.length
                     (filter (fun s => counts (provider_cap (yf_Ticker s)))
                        (complement (dedup symbols) reference)))
         < min_count)%Z ->
        (Z.of_nat (List.length result) < min_count)%Z)
    /\ (NoDup symbols -> dedup symbols = symbols).
Proof.
  intros H.
  set (base := dedup symbols) in *.
  set (n := List.length
              (filter (fun s => counts (provider_cap (yf_Ticker s)))
                 (complement base reference))).
  destruct (Z_le_gt_dec min_count (Z.of_nat (List.length base)))
    as [Hle|Hgt].
  - exists base, tr.
    split; [now apply ensure_min_count_enough|].
    split; [apply firstn_all|]. split; [auto|].
    split; [lia|]. split; [lia | apply dedup_NoDup_id].
  - destruct H as [H|[H Hfast]]; [lia|].
    destruct (ensure_min_count_top_up http yf_Ticker bucket symbols
                min_count tr reference) as [tr' Hrun]; [fold base; lia | exact H |].
    fold base in Hrun.
    assert (Hn : List.length
                   (sort_caps (collected yf_Ticker (not_in base reference)))
                 = n).
    { rewrite sort_caps_length, collected_length, not_in_complement.
      unfold n. f_equal. apply filter_ext_in. intros s Hs.
      unfold rankable. rewrite capitalization_provider_cap; [reflexivity|].
      rewrite forallb_forall in Hfast. now apply Hfast. }
    eexists. exists tr'. split; [exact Hrun|].
    split; [apply firstn_prefix|].
    split; [intros s Hs; apply in_or_app; now left|].
    rewrite length_app, length_map, length_firstn, Hn.
    split; [lia|]. split; [lia | apply dedup_NoDup_id].
Qed.

Lemma top_up_preserves_and_bounds_witness :
  exists result tr',
    ensure_min_count flaky_network sample_provider "largecap"
      ["A.NS"; "B.NS"] 5 [] = (Ok result, tr')
    /\ firstn 2 result = ["A.NS"; "B.NS"]
    /\ Z.of_nat (List.length result) = 5%Z.
Proof.
  destruct (top_up_preserves_and_bounds flaky_network sample_provider
              "largecap" ["A.NS"; "B.NS"] 5 []
              ["A.NS"; "B.NS"; "C.NS"; "D.NS"; "E.NS"; "F.NS"; "G.NS"; "H.NS"])
    as [result [tr' [Hrun [Hprefix [_ [Hlen _]]]]]].
  - right. split.
    + exists reference_table. eexists.
      split; [cbv; reflexivity | reflexivity].
    + reflexivity.
  - exists result, tr'. split; [exact Hrun|]. split; [exact Hprefix|].
    exact Hlen.
Defined.

(** C2. Top-up exclusivity.  Whenever the short-circuit applies or the
    reference universe is obtained, what [ensure_min_count] returns is
    [base] followed by an appended part, no symbol of which is in [base];
    every appended symbol comes from the complement, which keeps the
    order of the reference list and holds exactly the reference symbols
    that are not in [base]. *)
Theorem top_up_exclusive (http : nat -> string -> attempt)
    (yf_Ticker : string -> result Ticker) (bucket : string)
    (symbols : list string) (min_count : Z) (tr : trace)
    (reference : list string) :
  (min_count <= Z.of_nat (List.length (dedup symbols)))%Z \/
  reference_obtained http bucket symbols min_count tr reference ->
  exists result tr',
    ensure_min_count http yf_Ticker bucket symbols min_count tr
    = (Ok result, tr')
    /\ result = dedup symbols ++ skipn (List.length (dedup symbols)) result
    /\ (forall s, In s (skipn (List.length (dedup symbols)) result) ->
          ~ In s (dedup symbols) /\ In s (not_in (dedup symbols) reference))
    /\ Subseq (not_in (dedup symbols) reference) reference
    /\ (forall s, In s (not_in (dedup symbols) reference) <->
                  In s reference /\ ~ In s (dedup symbols)).
Proof.
  intros H.
  assert (Hcompl : forall s, In s (not_in (dedup symbols) reference) <->
                             In s reference /\ ~ In s (dedup symbols)).
  { intros s. unfold not_in. rewrite filter_In, negb_true_iff, mem_false.
    reflexivity. }
  destruct (Z_le_gt_dec min_count (Z.of_nat (List.length (dedup symbols))))
    as [Hle|Hgt].
  - exists (dedup symbols), tr.
    split; [now apply ensure_min_count_enough|].
    rewrite skipn_all. rewrite app_nil_r.
    split; [reflexivity|]. split; [intros s []|].
    split; [apply filter_Subseq | exact Hcompl].
  - destruct H as [H|H]; [lia|].
    destruct (ensure_min_count_top_up http yf_Ticker bucket symbols
                min_count tr reference) as [tr' Hrun]; [lia | exact H |].
    eexists. exists tr'. split; [exact Hrun|].
    rewrite skipn_prefix. split; [reflexivity|]. split.
    + intros s Hs. apply in_map_iff in Hs as [[s' z] [Es Hs]].
      cbn in Es. subst s'. apply firstn_incl in Hs.
      assert (Hr : In s (map fst (sort_caps
                   (collected yf_Ticker (not_in (dedup symbols) reference)))))
        by (apply in_map_iff; now exists (s, z)).
      apply ranked_symbol_rankable in Hr as [Hr _].
      split; [now apply Hcompl in Hr | exact Hr].
    + split; [apply filter_Subseq | exact Hcompl].
Qed.

Lemma top_up_exclusive_witness :
  exists result tr',
    ensure_min_count flaky_network sample_provider "largecap"
      ["A.NS"; "B.NS"] 5 [] = (Ok result, tr')
    /\ forall s, In s (skipn 2 result) -> ~ In s ["A.NS"; "B.NS"].
Proof.
  destruct (top_up_exclusive flaky_network sample_provider
              "largecap" ["A.NS"; "B.NS"] 5 []
              ["A.NS"; "B.NS"; "C.NS"; "D.NS"; "E.NS"; "F.NS"; "G.NS"; "H.NS"])
    as [result [tr' [Hrun [_ [Hex _]]]]].
  - right. exists reference_table. eexists. split; [cbv; reflexivity | reflexivity].
  - exists result, tr'. split; [exact Hrun|].
    intros s Hs. exact (proj1 (Hex s Hs)).
Defined.

(** C6, as the code has it.  [extract_symbols] returns one symbol for
    each present cell of the selected column, repeated ones included; the
    list is deduplicated by the bucket step that receives it.  What
    [ensure_min_count] returns starts with [list(dict.fromkeys(symbols))],
    which is the list of first occurrences of the extracted symbols: it
    has no duplicates, holds the same symbols, and keeps their order. *)
Theorem bucket_symbols_deduplicated (http : nat -> string -> attempt)
    (yf_Ticker : string -> result Ticker) (df : DataFrame)
    (syms : list string) (bucket : string) (min_count : Z)
    (tr : trace) (result : list string) (tr' : trace) :
  extract_symbols df = Ok syms ->
  ensure_min_count http yf_Ticker bucket syms min_count tr = (Ok result, tr') ->
  (exists c, select_column_spec df = Some c /\
             syms = somes (map cell_symbol (values c)))
  /\ (exists top, result = dedup syms ++ top)
  /\ dedup syms = first_occurrences syms
  /\ NoDup (dedup syms)
  /\ (forall x, In x (dedup syms) <-> In x syms)
  /\ Subseq (dedup syms) syms.
Proof.
  intros Hext Hrun. split.
  { rewrite extract_symbols_select in Hext.
    destruct (select_column_spec df) as [c|]; [|discriminate].
    exists c. split; [reflexivity|]. now injection Hext as <-. }
  split; [now apply ensure_min_count_prefix in Hrun|].
  rewrite dedup_first_occurrences.
  split; [reflexivity|]. split; [apply first_occurrences_NoDup|].
  split; [apply first_occurrences_In | apply first_occurrences_Subseq].
Qed.

Lemma bucket_symbols_deduplicated_witness :
  dedup ["TCS.NS"; "INFY.NS"; "TCS.NS"] =
  first_occurrences ["TCS.NS"; "INFY.NS"; "TCS.NS"]
  /\ NoDup (dedup ["TCS.NS"; "INFY.NS"; "TCS.NS"]).
Proof.
  destruct (bucket_symbols_deduplicated flaky_network sample_provider
              repeated_table ["TCS.NS"; "INFY.NS"; "TCS.NS"] "smallcap" 2 []
              ["TCS.NS"; "INFY.NS"] [] eq_refl eq_refl)
    as [_ [_ [H1 [H2 _]]]].
  split; [exact H1 | exact H2].
Defined.


(** ** The scenarios of the specification *)

Example shortfall_top_up_scenario :
  fst (ensure_min_count flaky_network sample_provider "largecap"
         ["A.NS"; "B.NS"] 5 [])
  = Ok ["A.NS"; "B.NS"; "E.NS"; "C.NS"; "D.NS"].
Proof. reflexivity. Qed.

Example empty_fetch_is_a_failure :
  exists tr',
    fetch_csv (fun _ _ => Parsed header_only_table) "u" 3 1 []
    = (Raise (fetch_error "u" EMPTY_CSV), tr') /\ requests tr' = 3.
Proof. eexists. split; [cbv; reflexivity | reflexivity]. Qed.

Example heuristic_fallback_scenario :
  extract_symbols unlabelled_table = Ok ["TCS.NS"; "INFY.NS"].
Proof. reflexivity. Qed.

Example erroring_column_is_skipped :
  str_len (mkSeries "ISIN Code" object [Num "500325"; Num "532540"])
  = Raise (Exception AttributeError
             "Can only use .str accessor with string values!")
  /\ extract_symbols codes_table = Ok ["RELIANCE.NS"; "TCS.NS"].
Proof. split; reflexivity. Qed.

Example equal_caps_keep_their_order :
  sort_caps [("X.NS", 5%Z); ("Y.NS", 7%Z); ("Z.NS", 5%Z)]
  = [("Y.NS", 7%Z); ("X.NS", 5%Z); ("Z.NS", 5%Z)].
Proof. reflexivity. Qed.

Example below_minimum_is_accepted :
  fst (ensure_min_count flaky_network sample_provider "largecap"
         ["A.NS"; "B.NS"] 100 [])
  = Ok ["A.NS"; "B.NS"; "E.NS"; "C.NS"; "D.NS"; "F.NS"].
Proof. reflexivity. Qed.

(* ================================================================== *)
(** ** More on [to_yahoo_symbol] *)

Section NormalFormFacts.

Local Open Scope string_scope.

Lemma length_append s t :
  String.length (s ++ t) = String.length s + String.length t.
Proof. induction s as [|c s IH]; cbn; [reflexivity | now rewrite IH]. Qed.

Lemma length_upper s : String.length (upper s) = String.length s.
Proof. induction s as [|c s IH]; cbn; [reflexivity | now rewrite IH]. Qed.

Lemma length_lstrip s : String.length (lstrip s) <= String.length s.
Proof.
  induction s as [|c s IH]; cbn; [lia|].
  destruct (isspace c); cbn; lia.
Qed.

Lemma length_rstrip s : String.length (rstrip s) <= String.length s.
Proof.
  induction s as [|c s IH]; cbn [rstrip]; [cbn; lia|].
  destruct (rstrip s) as [|d r]; [destruct (isspace c)|]; cbn in *; lia.
Qed.

Lemma length_strip s : String.length (strip s) <= String.length s.
Proof.
  unfold strip. pose proof (length_rstrip (lstrip s)).
  pose proof (length_lstrip s). lia.
Qed.

Lemma lstrip_blank s : blank s = true -> lstrip s = "".
Proof.
  induction s as [|c s IH]; cbn; [reflexivity|].
  destruct (isspace c); cbn; [exact IH | discriminate].
Qed.

Lemma lstrip_padded pre t : blank pre = true -> lstrip (pre ++ t) = lstrip t.
Proof.
  induction pre as [|c pre IH]; cbn; [reflexivity|].
  destruct (isspace c); cbn; [exact IH | discriminate].
Qed.

Lemma rstrip_blank s : blank s = true -> rstrip s = "".
Proof.
  induction s as [|c s IH]; cbn [blank rstrip]; [reflexivity|].
  rewrite andb_true_iff. intros [Hc Hs]. now rewrite IH, Hc.
Qed.

Lemma rstrip_padded t post : blank post = true -> rstrip (t ++ post) = rstrip t.
Proof.
  intros H. induction t as [|c t IH]; cbn [append rstrip].
  - now apply rstrip_blank.
  - now rewrite IH.
Qed.

Lemma strip_padded pre s post :
  blank pre = true -> blank post = true ->
  strip (pre ++ s ++ post) = strip s.
Proof.
  intros Hpre Hpost. unfold strip. rewrite lstrip_padded by assumption.
  induction s as [|c s IH]; cbn [append lstrip].
  - now rewrite (lstrip_blank post).
  - destruct (isspace c); [exact IH|].
    change (String c (s ++ post)) with (String c s ++ post).
    now apply rstrip_padded.
Qed.

(** The statement of the idempotence, for the proofs below. *)
Lemma to_yahoo_symbol_fixed s : normalized (to_yahoo_symbol s).
Proof.
  unfold normalized. unfold to_yahoo_symbol at 1.
  rewrite to_yahoo_symbol_strip, to_yahoo_symbol_upper,
    to_yahoo_symbol_endswith.
  reflexivity.
Qed.

End NormalFormFacts.

(** X1. The form of every symbol that [to_yahoo_symbol] returns: it ends
    with [.NS], is left as it is by [upper] and by [strip], and has at
    least three characters; for ASCII input it has at most three
    characters more than the input. *)
Theorem to_yahoo_symbol_form (s : string) :
  (exists stem, to_yahoo_symbol s = (stem ++ ".NS")%string)
  /\ upper (to_yahoo_symbol s) = to_yahoo_symbol s
  /\ strip (to_yahoo_symbol s) = to_yahoo_symbol s
  /\ 3 <= String.length (to_yahoo_symbol s)
  /\ (isascii s = true ->
      String.length (to_yahoo_symbol s) <= String.length s + 3).
Proof.
  split; [apply endswith_split, to_yahoo_symbol_endswith|].
  split; [apply to_yahoo_symbol_upper|].
  split; [apply to_yahoo_symbol_strip|].
  split.
  - destruct (endswith_split _ _ (to_yahoo_symbol_endswith s)) as [stem ->].
    rewrite length_append. cbn. lia.
  - intros _. unfold to_yahoo_symbol.
    pose proof (length_strip s) as Hs.
    destruct (endswith (upper (strip s)) ".NS"); cbn [negb];
      rewrite ?length_append, length_upper; cbn; lia.
Qed.

(** X2. [to_yahoo_symbol] does not see the case of its input nor the
    whitespace around it: uppercasing the input, or padding it with
    whitespace on either side, gives the same symbol. *)
Theorem to_yahoo_symbol_ignores_case_and_padding (pre s post : string) :
  blank pre = true -> blank post = true ->
  to_yahoo_symbol (pre ++ s ++ post)%string = to_yahoo_symbol s
  /\ to_yahoo_symbol (upper s) = to_yahoo_symbol s
  /\ to_yahoo_symbol (upper (pre ++ s ++ post)%string) = to_yahoo_symbol s.
Proof.
  intros Hpre Hpost.
  assert (Hup : forall t, to_yahoo_symbol (upper t) = to_yahoo_symbol t).
  { intros t. unfold to_yahoo_symbol.
    now rewrite <- upper_strip, upper_idem. }
  split; [|split].
  - unfold to_yahoo_symbol. now rewrite strip_padded.
  - apply Hup.
  - rewrite Hup. unfold to_yahoo_symbol. now rewrite strip_padded.
Qed.

Lemma to_yahoo_symbol_ignores_case_and_padding_witness :
  to_yahoo_symbol "  reliance " = to_yahoo_symbol "reliance"
  /\ to_yahoo_symbol "RELIANCE" = to_yahoo_symbol "reliance".
Proof.
  destruct (to_yahoo_symbol_ignores_case_and_padding "  " "reliance" " "
              eq_refl eq_refl) as [H1 [H2 _]].
  split; [exact H1 | exact H2].
Defined.

(* ================================================================== *)
(** ** More on [extract_symbols] *)

Section ExtractMoreFacts.

Lemma symbols_of_series_normalized (c : Series) :
  Forall normalized (symbols_of_series c).
Proof.
  unfold symbols_of_series. rewrite somes_map_cell_symbol.
  induction (map cell_str (filter notna (values c))) as [|x l IH];
    cbn [map]; constructor; [apply to_yahoo_symbol_fixed | exact IH].
Qed.

Lemma symbols_of_series_length (c : Series) :
  List.length (symbols_of_series c) = List.length (filter notna (values c)).
Proof.
  unfold symbols_of_series.
  now rewrite somes_map_cell_symbol, !length_map.
Qed.

Lemma filter_length_le {A : Type} (f : A -> bool) (l : list A) :
  List.length (filter f l) <= List.length l.
Proof.
  induction l as [|x l IH]; cbn; [lia|]. destruct (f x); cbn; lia.
Qed.

Lemma select_column_spec_In (df : DataFrame) c :
  select_column_spec df = Some c -> In c (series df).
Proof.
  unfold select_column_spec.
  destruct (find (fun p => mem p (columns df)) PREFERRED);
    intros H; now apply find_some in H.
Qed.

(** Every extracted list is normalized. *)
Lemma extract_symbols_normalized (df : DataFrame) syms :
  extract_symbols df = Ok syms -> Forall normalized syms.
Proof.
  rewrite extract_symbols_select.
  destruct (select_column_spec df) as [c|]; [|discriminate].
  intros [= <-]. apply symbols_of_series_normalized.
Qed.

Lemma symbols_of_ticker_frame (syms : list string) :
  symbols_of_series (mkSeries "ticker" object (map Str syms))
  = map to_yahoo_symbol syms.
Proof.
  unfold symbols_of_series. cbn [values].
  induction syms as [|s syms IH]; cbn; [reflexivity | now rewrite IH].
Qed.

Lemma map_normalized (syms : list string) :
  Forall normalized syms -> map to_yahoo_symbol syms = syms.
Proof.
  induction 1 as [|s syms Hs _ IH]; cbn; [reflexivity|].
  now rewrite Hs, IH.
Qed.

Lemma extract_symbols_ticker_frame (syms : list string) :
  extract_symbols (ticker_frame syms) = Ok (map to_yahoo_symbol syms).
Proof.
  rewrite extract_symbols_select.
  change (select_column_spec (ticker_frame syms))
    with (Some (mkSeries "ticker" object (map Str syms))).
  cbv beta iota. now rewrite symbols_of_ticker_frame.
Qed.

End ExtractMoreFacts.

(** X3. What [extract_symbols] returns, when it returns: every symbol is
    one that [to_yahoo_symbol] leaves unchanged and ends with [.NS]; there
    is one symbol for each cell of some column of the table that is not
    missing, so never more symbols than the table has rows. *)
Theorem extract_symbols_output (df : DataFrame) (syms : list string) :
  extract_symbols df = Ok syms ->
  Forall (fun s => to_yahoo_symbol s = s) syms
  /\ Forall (fun s => endswith s ".NS" = true) syms
  /\ exists c,
       In c (series df)
       /\ List.length syms = List.length (filter notna (values c))
       /\ List.length syms <= List.length (values c).
Proof.
  intros H. pose proof (extract_symbols_normalized df syms H) as Hn.
  split; [exact Hn|]. split.
  - eapply Forall_impl; [|exact Hn]. intros s Hs.
    unfold normalized in Hs. rewrite <- Hs. apply to_yahoo_symbol_endswith.
  - rewrite extract_symbols_select in H.
    destruct (select_column_spec df) as [c|] eqn:Hsel; [|discriminate].
    injection H as <-. exists c.
    split; [now apply select_column_spec_In|].
    rewrite symbols_of_series_length.
    split; [reflexivity | apply filter_length_le].
Qed.

Lemma extract_symbols_output_witness :
  Forall (fun s => to_yahoo_symbol s = s) ["RELIANCE.NS"; "TCS.NS"]
  /\ Forall (fun s => endswith s ".NS" = true) ["RELIANCE.NS"; "TCS.NS"].
Proof.
  destruct (extract_symbols_output codes_table ["RELIANCE.NS"; "TCS.NS"]
              eq_refl) as [H1 [H2 _]].
  split; [exact H1 | exact H2].
Defined.

(** X4. How [extract_symbols] fails, and when it cannot.  The only
    exception that leaves it is the [ValueError] of line 63, and then no
    preferred name labels a column and no column is short text: neither
    the [KeyError] of a lookup by label nor the [AttributeError] of the
    string accessor gets out.  A table with a column under a preferred
    name never fails, whatever the column holds (numbers, missing values
    only, or no row at all). *)
Theorem extract_symbols_failure (df : DataFrame) :
  (forall e, extract_symbols df = Raise e ->
     e = NO_COLUMN
     /\ (forall p, In p PREFERRED -> ~ In p (columns df))
     /\ (forall c, In c (series df) -> short_text c = false))
  /\ (forall p, In p PREFERRED -> In p (columns df) ->
        exists c, In c (series df) /\
                  extract_symbols df = Ok (symbols_of_series c)).
Proof.
  rewrite extract_symbols_select. unfold select_column_spec. split.
  - intros e.
    destruct (find (fun p => mem p (columns df)) PREFERRED) as [p|] eqn:Ep.
    + apply find_some in Ep as [_ Ep].
      destruct (find_label _ _ Ep) as [c ->]. discriminate.
    + destruct (find short_text (series df)) eqn:Ec; [discriminate|].
      intros [= <-]. split; [reflexivity|]. split.
      * intros p Hp Hin. apply mem_In in Hin.
        now rewrite (find_none _ _ Ep p Hp) in Hin.
      * intros c Hc. exact (find_none _ _ Ec c Hc).
  - intros p Hp Hin.
    destruct (find (fun p => mem p (columns df)) PREFERRED) as [q|] eqn:Eq.
    + apply find_some in Eq as [_ Eq].
      destruct (find_label _ _ Eq) as [c Hc]. rewrite Hc.
      exists c. split; [now apply find_some in Hc | reflexivity].
    + apply mem_In in Hin. now rewrite (find_none _ _ Eq p Hp) in Hin.
Qed.

(** X5. Round trip with the table that [build_bucket] writes: on
    [pd.DataFrame({"ticker": syms})], [extract_symbols] selects the column
    [ticker] and returns each symbol normalized; the symbols come back
    unchanged, in order and with their repetitions, when they are
    normalized, as every list that [extract_symbols] returns is. *)
Theorem extract_symbols_reads_back (df : DataFrame) (syms : list string) :
  extract_symbols df = Ok syms ->
  extract_symbols (ticker_frame syms) = Ok syms
  /\ forall others,
       extract_symbols (ticker_frame others)
       = Ok (map to_yahoo_symbol others).
Proof.
  intros H. split.
  - rewrite extract_symbols_ticker_frame, map_normalized; [reflexivity|].
    now apply (extract_symbols_normalized df).
  - apply extract_symbols_ticker_frame.
Qed.

Lemma extract_symbols_reads_back_witness :
  extract_symbols (ticker_frame ["TCS.NS"; "INFY.NS"; "TCS.NS"])
  = Ok ["TCS.NS"; "INFY.NS"; "TCS.NS"].
Proof.
  exact (proj1 (extract_symbols_reads_back repeated_table
                  ["TCS.NS"; "INFY.NS"; "TCS.NS"] eq_refl)).
Defined.

(* ================================================================== *)
(** ** More on [fetch_csv] *)

Section FetchMoreFacts.

Variable http : nat -> string -> attempt.

Lemma first_non_failure (outcome : nat -> option exn) (n : nat) :
  (exists k, k <= n /\ (forall i, i < k -> outcome i <> None)
             /\ outcome k = None)
  \/ (forall i, i <= n -> outcome i <> None).
Proof.
  induction n as [|n [[k [Hk [Hbefore Hat]]]|Hall]].
  - destruct (outcome 0) eqn:E.
    + right. intros i Hi. replace i with 0 by lia. now rewrite E.
    + left. exists 0. repeat split; [lia | intros i Hi; lia | exact E].
  - left. exists k. repeat split; [lia | exact Hbefore | exact Hat].
  - destruct (outcome (S n)) eqn:E.
    + right. intros i Hi. destruct (Nat.eq_dec i (S n)) as [->|N].
      * now rewrite E.
      * apply Hall. lia.
    + left. exists (S n). repeat split; [lia | | exact E].
      intros i Hi. apply Hall. lia.
Qed.

Lemma attempt_succeeds (a : attempt) :
  attempt_failure a = None -> exists df, a = Parsed df /\ empty df = false.
Proof.
  destruct a as [e|df]; cbn; [discriminate|].
  destruct (empty df) eqn:E; [discriminate|]. intros _. now exists df.
Qed.

(** Whatever the network does, a budget of at least one attempt, with a
    [sleep] that is not negative, ends at the first attempt that does not
    fail, or with the budget. *)
Lemma fetch_csv_cases url retries sleep tr :
  (1 <= retries)%Z ->
  (0 <= sleep)%Z ->
  exists k,
    (Z.of_nat k < retries)%Z
    /\ (forall i, i < k ->
          attempt_failure (http (requests tr + i) url) <> None)
    /\ ((exists df,
           http (requests tr + k) url = Parsed df /\ empty df = false /\
           fetch_csv http url retries sleep tr =
           (Ok (Some df), tr ++ retried url sleep k ++ [HttpGet url]))
        \/ (Z.of_nat k = (retries - 1)%Z /\
            exists last,
              attempt_failure (http (requests tr + k) url) = Some last /\
              fetch_csv http url retries sleep tr =
              (Raise (fetch_error url last),
               tr ++ retried url sleep k ++ [HttpGet url]))).
Proof.
  intros Hretries Hsleep.
  destruct (first_non_failure
              (fun i => attempt_failure (http (requests tr + i) url))
              (Z.to_nat retries - 1)) as [[k [Hk [Hbefore Hat]]]|Hall].
  - exists k. split; [lia|]. split; [exact Hbefore|]. left.
    destruct (attempt_succeeds _ Hat) as [df [Hdf Hne]].
    exists df. split; [exact Hdf|]. split; [exact Hne|].
    apply fetch_csv_succeeds;
      [exact Hsleep | lia | exact Hbefore | exact Hdf | exact Hne].
  - exists (Z.to_nat retries - 1). split; [lia|].
    split; [intros i Hi; apply Hall; lia|]. right. split; [lia|].
    destruct (fetch_loop_exhausted http url retries sleep Hsleep
                (Z.to_nat retries - 1) 1%Z tr) as [last [Hlast Hrun]];
      [lia | exact Hall |].
    exists last. split; [exact Hlast|].
    unfold fetch_csv, py_range.
    replace (Z.to_nat (retries + 1 - 1))
      with (S (Z.to_nat retries - 1)) by lia.
    exact Hrun.
Qed.

Lemma lookups_retried url sleep k :
  filter is_lookup (retried url sleep k ++ [HttpGet url]) = [].
Proof. induction k as [|k IH]; cbn; [reflexivity | exact IH]. Qed.


End FetchMoreFacts.



(* ================================================================== *)
(** ** More on [ensure_min_count] *)

Section EnsureMoreFacts.

Variable http : nat -> string -> attempt.
Variable yf_Ticker : string -> result Ticker.

Lemma extract_symbols_raises (df : DataFrame) e :
  extract_symbols df = Raise e -> e = NO_COLUMN.
Proof.
  rewrite extract_symbols_select.
  destruct (select_column_spec df); [discriminate | now intros [= <-]].
Qed.

(** The top-up path, step by step: the three ways it can end. *)
Lemma ensure_min_count_top_up_cases bucket symbols min_count tr :
  (Z.of_nat (List.length (dedup symbols)) < min_count)%Z ->
  exists k,
    k < 3 /\
    let tr1 :=
      (tr ++ [PrintTopUp bucket (List.length (dedup symbols)) min_count])
      ++ retried NIFTY500_CSV 1 k ++ [HttpGet NIFTY500_CSV] in
    (k = 2 /\ exists last,
       ensure_min_count http yf_Ticker bucket symbols min_count tr
       = (Raise (fetch_error NIFTY500_CSV last), tr1))
    \/ (exists df,
          fetch_csv http NIFTY500_CSV 3 1
            (tr ++ [PrintTopUp bucket (List.length (dedup symbols)) min_count])
          = (Ok (Some df), tr1)
          /\ ((extract_symbols df = Raise NO_COLUMN /\
               ensure_min_count http yf_Ticker bucket symbols min_count tr
               = (Raise NO_COLUMN, tr1))
              \/ (exists reference,
                    extract_symbols df = Ok reference /\
                    ensure_min_count http yf_Ticker bucket symbols
                      min_count tr
                    = (Ok (dedup symbols ++
                           map fst
                             (firstn
                                (Z.to_nat (min_count -
                                   Z.of_nat (List.length (dedup symbols))))
                                (sort_caps
                                   (collected yf_Ticker
                                      (not_in (dedup symbols) reference))))),
                       tr1 ++ map TickerLookup
                                (not_in (dedup symbols) reference))))).
Proof.
  intros Hlt.
  destruct (fetch_csv_cases http NIFTY500_CSV 3 1
              (tr ++ [PrintTopUp bucket (List.length (dedup symbols)) min_count]))
    as [k [Hk [_ Hend]]]; [lia | lia |].
  exists k. split; [lia|]. cbv zeta.
  assert (Hrun0 :
    ensure_min_count http yf_Ticker bucket symbols min_count tr =
    (n500_df <- fetch_csv http NIFTY500_CSV 3 1 ;;
     n500_syms <- lift (extract_symbols_of n500_df) ;;
     caps <- rank yf_Ticker (not_in (dedup symbols) n500_syms) ;;
     ret (dedup symbols ++
          map fst (slice_to
                     (min_count - Z.of_nat (List.length (dedup symbols)))
                     caps)))
      (tr ++ [PrintTopUp bucket (List.length (dedup symbols)) min_count])).
  { unfold ensure_min_count.
    replace (Z.of_nat (List.length (dedup symbols)) >=? min_count)%Z
      with false by (symmetry; rewrite Z.geb_leb; apply Z.leb_gt; lia).
    reflexivity. }
  destruct Hend as [[df [_ [_ Hrun]]]|[Hlastk [last [_ Hrun]]]].
  - right. exists df. split; [exact Hrun|].
    destruct (extract_symbols df) as [reference|e] eqn:Hext.
    + right. exists reference. split; [reflexivity|].
      rewrite Hrun0. unfold EffectMonad.bind at 1. rewrite Hrun.
      unfold EffectMonad.bind at 1. unfold lift at 1.
      cbn [extract_symbols_of]. rewrite Hext.
      unfold EffectMonad.bind at 1. rewrite rank_run.
      unfold ret. now rewrite slice_to_nonneg by lia.
    + left. apply extract_symbols_raises in Hext as Heq. subst e.
      split; [reflexivity|].
      rewrite Hrun0. unfold EffectMonad.bind at 1. rewrite Hrun.
      unfold EffectMonad.bind at 1. unfold lift at 1.
      cbn [extract_symbols_of]. now rewrite Hext.
  - left. split; [lia|]. exists last.
    rewrite Hrun0. unfold EffectMonad.bind at 1. now rewrite Hrun.
Qed.

Lemma lookups_app tr1 tr2 :
  filter is_lookup (tr1 ++ tr2) = filter is_lookup tr1 ++ filter is_lookup tr2.
Proof. apply filter_app. Qed.

Lemma lookups_map_TickerLookup l :
  filter is_lookup (map TickerLookup l) = map TickerLookup l.
Proof. induction l as [|s l IH]; cbn; [reflexivity | now rewrite IH]. Qed.

End EnsureMoreFacts.

Lemma count_occ_complement base reference s :
  count_occ string_dec (complement base reference) s
  = if in_dec string_dec s base then 0
    else count_occ string_dec reference s.
Proof.
  unfold complement.
  induction reference as [|x reference IH]; cbn [filter count_occ].
  - now destruct (in_dec string_dec s base).
  - destruct (in_dec string_dec x base) as [Hx|Hx]; cbn [count_occ].
    + rewrite IH. destruct (string_dec x s) as [->|N]; [|reflexivity].
      now destruct (in_dec string_dec s base).
    + rewrite IH. destruct (string_dec x s) as [->|N]; [|reflexivity].
      now destruct (in_dec string_dec s base).
Qed.

Section SelectionOrderFacts.

Context {A : Type}.
Variable R : A -> A -> Prop.

Lemma StronglySorted_firstn_skipn (n : nat) (l : list A) :
  StronglySorted R l ->
  forall a b, In a (firstn n l) -> In b (skipn n l) -> R a b.
Proof.
  intros Hl. revert n.
  induction Hl as [|x l Hl IH Hx]; intros n a b Ha Hb.
  - destruct n; contradiction.
  - destruct n as [|n]; [contradiction|].
    cbn [firstn skipn] in Ha, Hb. destruct Ha as [<-|Ha].
    + rewrite Forall_forall in Hx. apply Hx.
      rewrite <- (firstn_skipn n l). apply in_or_app. now right.
    + now apply (IH n).
Qed.

Lemma NoDup_append (l1 l2 : list A) :
  NoDup l1 -> NoDup l2 -> (forall x, In x l1 -> ~ In x l2) ->
  NoDup (l1 ++ l2).
Proof.
  induction 1 as [|x l1 Hx _ IH]; intros H2 Hdisj; cbn; [exact H2|].
  constructor.
  - rewrite in_app_iff. intros [H|H]; [contradiction|].
    apply (Hdisj x); [now left | exact H].
  - apply IH; [exact H2|]. intros y Hy. apply Hdisj. now right.
Qed.

Lemma NoDup_firstn_of (n : nat) (l : list A) : NoDup l -> NoDup (firstn n l).
Proof.
  intros H. revert n. induction H as [|x l Hx _ IH]; intros [|n]; cbn;
    try constructor.
  - intros Hin. apply Hx. now apply firstn_incl in Hin.
  - apply IH.
Qed.

Lemma firstn_firstn_le (n m : nat) (l : list A) :
  n <= m -> exists extra, firstn m l = firstn n l ++ extra.
Proof.
  revert n m. induction l as [|x l IH]; intros n m Hnm.
  - exists []. now rewrite !firstn_nil.
  - destruct n as [|n]; [now exists (firstn m (x :: l))|].
    destruct m as [|m]; [lia|].
    destruct (IH n m) as [extra He]; [lia|].
    exists extra. cbn. now rewrite He.
Qed.

End SelectionOrderFacts.

(** X8. How [ensure_min_count] fails.  It raises only on the top-up
    path, and then before any market-data lookup is made: either the
    reference universe could not be fetched, and the exception is the
    [RuntimeError] of [fetch_csv], raised after exactly three requests,
    or the reference table has no ticker column, and the exception is the
    [ValueError] of [extract_symbols].  No exception of a lookup leaves
    it. *)
Theorem ensure_min_count_failure (http : nat -> string -> attempt)
    (yf_Ticker : string -> result Ticker) (bucket : string)
    (symbols : list string) (min_count : Z) (tr : trace)
    (e : exn) (tr' : trace) :
  ensure_min_count http yf_Ticker bucket symbols min_count tr
  = (Raise e, tr') ->
  (Z.of_nat (List.length (dedup symbols)) < min_count)%Z
  /\ filter is_lookup tr' = filter is_lookup tr
  /\ (e = NO_COLUMN
      \/ exists last,
           e = fetch_error NIFTY500_CSV last /\
           requests tr' = requests tr + 3).
Proof.
  intros Hrun.
  destruct (Z_le_gt_dec min_count (Z.of_nat (List.length (dedup symbols))))
    as [Hle|Hgt].
  { rewrite ensure_min_count_enough in Hrun by exact Hle. discriminate. }
  split; [lia|].
  destruct (ensure_min_count_top_up_cases http yf_Ticker bucket symbols
              min_count tr) as [k [Hk Hcases]]; [lia|].
  cbv zeta in Hcases.
  assert (Hlook : forall k',
            filter is_lookup
              ((tr ++ [PrintTopUp bucket (List.length (dedup symbols)) min_count])
               ++ retried NIFTY500_CSV 1 k' ++ [HttpGet NIFTY500_CSV])
            = filter is_lookup tr).
  { intros k'.
    rewrite (lookups_app (tr ++ _)), lookups_retried, lookups_app. cbn.
    now rewrite !app_nil_r. }
  destruct Hcases as [[Hk2 [last Hfail]]|[df [_ [[_ Hfail]|[ref [_ Hok]]]]]].
  - rewrite Hfail in Hrun. injection Hrun as <- <-.
    split; [apply Hlook|]. right. exists last. split; [reflexivity|].
    subst k. rewrite !requests_app, requests_retried. cbn. lia.
  - rewrite Hfail in Hrun. injection Hrun as <- <-.
    split; [apply Hlook | now left].
  - rewrite Hok in Hrun. discriminate.
Qed.

Lemma ensure_min_count_failure_witness :
  exists last tr',
    ensure_min_count (fun _ _ => Failed timed_out) sample_provider
      "midcap" ["A.NS"] 2 []
    = (Raise (fetch_error NIFTY500_CSV last), tr')
    /\ filter is_lookup tr' = [].
Proof.
  destruct (ensure_min_count (fun _ _ => Failed timed_out) sample_provider
              "midcap" ["A.NS"] 2 []) as [r tr'] eqn:Hrun.
  destruct r as [result|e]; [cbv in Hrun; discriminate|].
  destruct (ensure_min_count_failure _ _ _ _ _ _ _ _ Hrun)
    as [_ [Hlook [Hcol|[last [-> _]]]]].
  - subst e. cbv in Hrun. discriminate.
  - exists last, tr'. split; [reflexivity | exact Hlook].
Defined.

(** X9. What the top-up costs.  When the reference universe is obtained,
    the lookups that [ensure_min_count] makes are those of the
    complement, the reference symbols that are not in the base, in the
    order of the reference list and once for each occurrence there: a
    symbol of the base is never looked up, any other symbol as many times
    as the reference list has it, so once when that list has no
    duplicates.  This is so however small the shortfall is: the number of
    lookups is the size of the complement, not the number of symbols that
    are missing. *)
Theorem top_up_looks_up_the_complement (http : nat -> string -> attempt)
    (yf_Ticker : string -> result Ticker) (bucket : string)
    (symbols : list string) (min_count : Z) (tr : trace)
    (reference : list string) :
  (Z.of_nat (List.length (dedup symbols)) < min_count)%Z ->
  reference_obtained http bucket symbols min_count tr reference ->
  exists result tr',
    ensure_min_count http yf_Ticker bucket symbols min_count tr
    = (Ok result, tr')
    /\ filter is_lookup tr' =
       filter is_lookup tr
       ++ map TickerLookup (complement (dedup symbols) reference)
    /\ List.length (filter is_lookup tr') =
       List.length (filter is_lookup tr)
       + List.length (complement (dedup symbols) reference)
    /\ (forall s,
          count_occ string_dec (complement (dedup symbols) reference) s
          = if in_dec string_dec s (dedup symbols) then 0
            else count_occ string_dec reference s)
    /\ (NoDup reference -> NoDup (complement (dedup symbols) reference)).
Proof.
  intros Hlt [df [tr1 [Hfetch Hext]]].
  destruct (ensure_min_count_top_up_cases http yf_Ticker bucket symbols
              min_count tr) as [k [Hk Hcases]]; [lia|].
  cbv zeta in Hcases.
  destruct Hcases as [[_ [last Hfail]]|[df' [Hfetch' Hrest]]].
  - exfalso. revert Hfail. unfold ensure_min_count.
    replace (Z.of_nat (List.length (dedup symbols)) >=? min_count)%Z
      with false by (symmetry; rewrite Z.geb_leb; apply Z.leb_gt; lia).
    unfold EffectMonad.bind at 1. unfold emit at 1.
    unfold EffectMonad.bind at 1. rewrite Hfetch.
    unfold EffectMonad.bind at 1. unfold lift at 1.
    cbn [extract_symbols_of]. rewrite Hext.
    unfold EffectMonad.bind at 1. rewrite rank_run. discriminate.
  - rewrite Hfetch in Hfetch'. injection Hfetch' as <- Htr1.
    destruct Hrest as [[Hno _]|[ref [Href Hok]]];
      [rewrite Hext in Hno; discriminate|].
    rewrite Hext in Href. injection Href as <-.
    eexists. eexists. split; [exact Hok|].
    assert (Hlook :
      filter is_lookup
        (((tr ++ [PrintTopUp bucket (List.length (dedup symbols)) min_count])
          ++ retried NIFTY500_CSV 1 k ++ [HttpGet NIFTY500_CSV])
         ++ map TickerLookup (not_in (dedup symbols) reference))
      = filter is_lookup tr
        ++ map TickerLookup (not_in (dedup symbols) reference)).
    { rewrite (lookups_app (_ ++ _ ++ [HttpGet _])),
        (lookups_app (tr ++ _)), lookups_retried, lookups_app,
        lookups_map_TickerLookup. cbn.
      now rewrite !app_nil_r. }
    rewrite Hlook, (not_in_complement (dedup symbols) reference).
    split; [reflexivity|].
    split; [now rewrite length_app, length_map|].
    split; [apply count_occ_complement | apply NoDup_filter].
Qed.

Lemma top_up_looks_up_the_complement_witness :
  exists result tr',
    ensure_min_count flaky_network sample_provider "largecap"
      ["A.NS"; "B.NS"] 3 [] = (Ok result, tr')
    /\ List.length (filter is_lookup tr') = 6.
Proof.
  destruct (top_up_looks_up_the_complement flaky_network sample_provider
              "largecap" ["A.NS"; "B.NS"] 3 []
              ["A.NS"; "B.NS"; "C.NS"; "D.NS"; "E.NS"; "F.NS"; "G.NS"; "H.NS"])
    as [result [tr' [Hrun [_ [Hlen _]]]]].
  - cbn. lia.
  - exists reference_table. eexists.
    split; [cbv; reflexivity | reflexivity].
  - exists result, tr'. split; [exact Hrun | exact Hlen].
Defined.

(** X10. Which symbols the top-up takes.  When the reference universe is
    obtained, the appended part is the first [min_count - len(base)]
    symbols of the ranking, in ranking order, and no candidate that is
    left out has a larger capitalization than one that is taken. *)
Theorem top_up_takes_the_largest (http : nat -> string -> attempt)
    (yf_Ticker : string -> result Ticker) (bucket : string)
    (symbols : list string) (min_count : Z) (tr : trace)
    (reference : list string) :
  (Z.of_nat (List.length (dedup symbols)) < min_count)%Z ->
  reference_obtained http bucket symbols min_count tr reference ->
  exists result tr' ranked,
    ensure_min_count http yf_Ticker bucket symbols min_count tr
    = (Ok result, tr')
    /\ (forall tr0,
          fst (rank yf_Ticker (not_in (dedup symbols) reference) tr0)
          = Ok ranked)
    /\ skipn (List.length (dedup symbols)) result =
       map fst
         (firstn (Z.to_nat (min_count - Z.of_nat (List.length (dedup symbols))))
            ranked)
    /\ (forall taken left,
          In taken
            (firstn (Z.to_nat (min_count - Z.of_nat (List.length (dedup symbols))))
               ranked) ->
          In left
            (skipn (Z.to_nat (min_count - Z.of_nat (List.length (dedup symbols))))
               ranked) ->
          (snd left <= snd taken)%Z).
Proof.
  intros Hlt Href.
  destruct (ensure_min_count_top_up http yf_Ticker bucket symbols
              min_count tr reference Hlt Href) as [tr' Hrun].
  eexists. exists tr'.
  exists (sort_caps (collected yf_Ticker (not_in (dedup symbols) reference))).
  split; [exact Hrun|].
  split; [intros tr0; now rewrite rank_run|].
  split; [apply skipn_prefix|].
  intros taken left Ht Hl.
  exact (StronglySorted_firstn_skipn cap_ge _ _
           (sort_caps_StronglySorted _) taken left Ht Hl).
Qed.

Lemma top_up_takes_the_largest_witness :
  exists result tr',
    ensure_min_count flaky_network sample_provider "largecap"
      ["A.NS"; "B.NS"] 4 [] = (Ok result, tr')
    /\ skipn 2 result = ["E.NS"; "C.NS"].
Proof.
  destruct (top_up_takes_the_largest flaky_network sample_provider
              "largecap" ["A.NS"; "B.NS"] 4 []
              ["A.NS"; "B.NS"; "C.NS"; "D.NS"; "E.NS"; "F.NS"; "G.NS"; "H.NS"])
    as [result [tr' [ranked [Hrun [Hrank [Hskip _]]]]]].
  - cbn. lia.
  - exists reference_table. eexists.
    split; [cbv; reflexivity | reflexivity].
  - exists result, tr'. split; [exact Hrun|].
    specialize (Hrank []). cbv in Hrank. injection Hrank as <-.
    exact Hskip.
Defined.

(** X11. No duplicate gets into a bucket from a reference list that has
    none: when the short-circuit applies, or the reference universe is
    obtained and its extracted list has no duplicates, the list that
    [ensure_min_count] returns has no duplicates. *)
Theorem bucket_without_duplicates (http : nat -> string -> attempt)
    (yf_Ticker : string -> result Ticker) (bucket : string)
    (symbols : list string) (min_count : Z) (tr : trace)
    (reference : list string) :
  (min_count <= Z.of_nat (List.length (dedup symbols)))%Z \/
  (reference_obtained http bucket symbols min_count tr reference /\
   NoDup reference) ->
  exists result tr',
    ensure_min_count http yf_Ticker bucket symbols min_count tr
    = (Ok result, tr')
    /\ NoDup result.
Proof.
  intros H.
  destruct (Z_le_gt_dec min_count (Z.of_nat (List.length (dedup symbols))))
    as [Hle|Hgt].
  - exists (dedup symbols), tr.
    split; [now apply ensure_min_count_enough | apply dedup_NoDup].
  - destruct H as [H|[Href Hnd]]; [lia|].
    destruct (ensure_min_count_top_up http yf_Ticker bucket symbols
                min_count tr reference) as [tr' Hrun]; [lia | exact Href |].
    eexists. exists tr'. split; [exact Hrun|].
    assert (Hranked : NoDup (map fst (sort_caps
               (collected yf_Ticker (not_in (dedup symbols) reference))))).
    { apply (Permutation_NoDup
               (Permutation_sym
                  (Permutation_map fst (sort_caps_Permutation _)))).
      rewrite collected_symbols. unfold not_in.
      now apply NoDup_filter, NoDup_filter. }
    apply NoDup_append.
    + apply dedup_NoDup.
    + rewrite <- firstn_map. now apply NoDup_firstn_of.
    + intros s Hs Hin. rewrite <- firstn_map in Hin.
      apply firstn_incl in Hin.
      apply ranked_symbol_rankable in Hin as [Hin _].
      unfold not_in in Hin. apply filter_In in Hin as [_ Hin].
      apply negb_true_iff, mem_false in Hin. contradiction.
Qed.

Lemma bucket_without_duplicates_witness :
  exists result tr',
    ensure_min_count flaky_network sample_provider "largecap"
      ["A.NS"; "B.NS"; "A.NS"] 5 [] = (Ok result, tr')
    /\ NoDup result.
Proof.
  apply (bucket_without_duplicates flaky_network sample_provider
           "largecap" ["A.NS"; "B.NS"; "A.NS"] 5 []
           ["A.NS"; "B.NS"; "C.NS"; "D.NS"; "E.NS"; "F.NS"; "G.NS"; "H.NS"]).
  right. split.
  - exists reference_table. eexists.
    split; [cbv; reflexivity | reflexivity].
  - repeat (apply NoDup_cons; [cbn; intuition discriminate|]).
    apply NoDup_nil.
Defined.

(** X12. Raising the minimum only appends.  For two minimums above the
    size of the base, with the same reference universe obtained for each,
    the bucket built for the larger minimum is the bucket built for the
    smaller one followed by further symbols: no symbol chosen for the
    smaller minimum is dropped or moved. *)
Theorem raising_the_minimum_only_appends (http : nat -> string -> attempt)
    (yf_Ticker : string -> result Ticker) (bucket : string)
    (symbols : list string) (min_count larger : Z) (tr : trace)
    (reference : list string) :
  (Z.of_nat (List.length (dedup symbols)) < min_count)%Z ->
  (min_count <= larger)%Z ->
  reference_obtained http bucket symbols min_count tr reference ->
  reference_obtained http bucket symbols larger tr reference ->
  exists result tr1 result' tr2 extra,
    ensure_min_count http yf_Ticker bucket symbols min_count tr
    = (Ok result, tr1)
    /\ ensure_min_count http yf_Ticker bucket symbols larger tr
       = (Ok result', tr2)
    /\ result' = result ++ extra.
Proof.
  intros Hlt Hle Href Href'.
  destruct (ensure_min_count_top_up http yf_Ticker bucket symbols
              min_count tr reference Hlt Href) as [tr1 Hrun].
  destruct (ensure_min_count_top_up http yf_Ticker bucket symbols
              larger tr reference) as [tr2 Hrun']; [lia | exact Href' |].
  destruct (firstn_firstn_le
              (Z.to_nat (min_count - Z.of_nat (List.length (dedup symbols))))
              (Z.to_nat (larger - Z.of_nat (List.length (dedup symbols))))
              (sort_caps (collected yf_Ticker
                            (not_in (dedup symbols) reference))))
    as [extra Hextra]; [lia|].
  eexists. exists tr1. eexists. exists tr2, (map fst extra).
  split; [exact Hrun|]. split; [exact Hrun'|].
  now rewrite Hextra, map_app, app_assoc.
Qed.

Lemma raising_the_minimum_only_appends_witness :
  exists result tr1 result' tr2 extra,
    ensure_min_count flaky_network sample_provider "largecap"
      ["A.NS"; "B.NS"] 3 [] = (Ok result, tr1)
    /\ ensure_min_count flaky_network sample_provider "largecap"
         ["A.NS"; "B.NS"] 5 [] = (Ok result', tr2)
    /\ result' = result ++ extra.
Proof.
  apply (raising_the_minimum_only_appends flaky_network sample_provider
           "largecap" ["A.NS"; "B.NS"] 3 5 []
           ["A.NS"; "B.NS"; "C.NS"; "D.NS"; "E.NS"; "F.NS"; "G.NS"; "H.NS"]).
  - cbn. lia.
  - lia.
  - exists reference_table. eexists.
    split; [cbv; reflexivity | reflexivity].
  - exists reference_table. eexists.
    split; [cbv; reflexivity | reflexivity].
Defined.

Section CapFacts.

Lemma get_setitem_other {V : Type} (d : PyDict.dict V) k k' (v : V) :
  (k =? k')%string = false ->
  PyDict.get (PyDict.setitem d k v) k' = PyDict.get d k'.
Proof.
  intros Hk. induction d as [|[k0 v0] d IH]; cbn.
  - now rewrite Hk.
  - destruct (k0 =? k)%string eqn:E0; cbn.
    + apply String.eqb_eq in E0. subst k0. now rewrite Hk.
    + now rewrite IH.
Qed.

Lemma get_setitem_same {V : Type} (d : PyDict.dict V) k (v : V) :
  PyDict.get (PyDict.setitem d k v) k = Some v.
Proof.
  induction d as [|[k0 v0] d IH]; cbn.
  - now rewrite String.eqb_refl.
  - destruct (k0 =? k)%string eqn:E0; cbn; rewrite E0; [reflexivity | exact IH].
Qed.

End CapFacts.

(** X13. The capitalization never comes from [fast_info.market_cap].  The
    fast path of line 79 reads the attribute named [market _cap], with a
    space.  For a ticker whose [fast_info] has no attribute of that very
    name, the value of [cap] is what [info] has under [marketCap] ([None]
    when the key is missing, the exception when reading [info] raises),
    and giving [fast_info] any value under the name [market_cap] changes
    nothing. *)
Theorem fast_info_market_cap_is_not_read (t : Ticker)
    (fi : PyDict.dict pyval) (v : pyval) :
  fast_info t = Ok fi ->
  PyDict.get fi "market _cap" = None ->
  market_cap (Ok t)
  = match info t with
    | Ok d => Ok (dict_get d "marketCap")
    | Raise e => Raise e
    end
  /\ getattr (PyDict.setitem fi "market_cap" v) "market_cap" PyNone = v
  /\ market_cap
       (Ok (mkTicker (Ok (PyDict.setitem fi "market_cap" v)) (info t)))
     = market_cap (Ok t).
Proof.
  intros Hfi Hnone.
  assert (Hcap : forall fi',
            PyDict.get fi' "market _cap" = None ->
            market_cap (Ok (mkTicker (Ok fi') (info t)))
            = match info t with
              | Ok d => Ok (dict_get d "marketCap")
              | Raise e => Raise e
              end).
  { intros fi' Hn. unfold market_cap, getattr. cbn. rewrite Hn.
    destruct (info t); reflexivity. }
  assert (Ht : market_cap (Ok t)
               = match info t with
                 | Ok d => Ok (dict_get d "marketCap")
                 | Raise e => Raise e
                 end).
  { destruct t as [fi0 i0]. cbn in Hfi. subst fi0. now apply Hcap. }
  split; [exact Ht|]. split.
  - unfold getattr. now rewrite get_setitem_same.
  - rewrite Ht. apply Hcap.
    rewrite get_setitem_other by reflexivity. exact Hnone.
Qed.

Lemma fast_info_market_cap_is_not_read_witness :
  market_cap
    (Ok (mkTicker (Ok (PyDict.setitem [("last_price", PyInt 12)]
                         "market_cap" (PyInt 700)))
           (Ok [("sector", PyInt 3)])))
  = Ok PyNone.
Proof.
  destruct (fast_info_market_cap_is_not_read
              (mkTicker (Ok [("last_price", PyInt 12)])
                 (Ok [("sector", PyInt 3)]))
              [("last_price", PyInt 12)] (PyInt 700) eq_refl eq_refl)
    as [Hinfo [_ Hsame]].
  cbn [info] in Hsame. rewrite Hsame. exact Hinfo.
Defined.

(* ================================================================== *)
(** ** [build_bucket] and [main] *)

Section WorldFacts.

Lemma core_of_app w1 w2 : core_of (w1 ++ w2) = core_of w1 ++ core_of w2.
Proof.
  induction w1 as [|e w1 IH]; cbn; [reflexivity|].
  destruct e; cbn; now rewrite IH.
Qed.

Lemma core_of_Core d : core_of (map Core d) = d.
Proof. induction d as [|e d IH]; cbn; [reflexivity | now rewrite IH]. Qed.

Lemma written_app w1 w2 : written (w1 ++ w2) = written w1 ++ written w2.
Proof.
  induction w1 as [|e w1 IH]; cbn; [reflexivity|].
  destruct e; cbn; now rewrite IH.
Qed.

Lemma written_Core d : written (map Core d) = [].
Proof. induction d as [|e d IH]; cbn; [reflexivity | exact IH]. Qed.

Lemma skipn_length_app {A : Type} (l d : list A) :
  skipn (List.length l) (l ++ d) = d.
Proof. induction l as [|x l IH]; cbn; [reflexivity | exact IH]. Qed.

Lemma run_core_extends {A : Type} (m : M A) w r d :
  m (core_of w) = (r, core_of w ++ d) ->
  BucketMonad.run_core m w = (r, w ++ map Core d).
Proof.
  intros H. unfold BucketMonad.run_core. cbv zeta. rewrite H.
  now rewrite skipn_length_app.
Qed.

End WorldFacts.

Section GrowFacts.

Variable http : nat -> string -> attempt.
Variable yf_Ticker : string -> result Ticker.

(** [fetch_csv] with its default budget: a table with rows, or the
    [RuntimeError]; the trace is extended. *)
Lemma requests_map_TickerLookup l : requests (map TickerLookup l) = 0.
Proof. induction l as [|s l IH]; [reflexivity | exact IH]. Qed.

Lemma fetch_csv_default url tr :
  exists d,
    1 <= requests d <= 3
    /\ ((exists df,
           empty df = false /\
           fetch_csv http url 3 1 tr = (Ok (Some df), tr ++ d))
        \/ (exists last,
              fetch_csv http url 3 1 tr
              = (Raise (fetch_error url last), tr ++ d))).
Proof.
  destruct (fetch_csv_cases http url 3 1 tr) as [k [Hk [_ Hend]]];
    [lia | lia |].
  exists (retried url 1 k ++ [HttpGet url]). split.
  { rewrite requests_app, requests_retried. cbn. lia. }
  destruct Hend as [[df [_ [Hne Hrun]]]|[_ [last [_ Hrun]]]].
  - left. now exists df.
  - right. now exists last.
Qed.

Lemma fetch_csv_grows url : grows (fetch_csv http url 3 1).
Proof.
  intros tr.
  destruct (fetch_csv_default url tr) as [d [_ [[df [_ H]]|[last H]]]];
    exists d; now rewrite H.
Qed.

(** [ensure_min_count]: how it ends, and what it returns for normalized
    symbols. *)
Lemma ensure_min_count_ends bucket symbols min_count tr :
  exists d,
    requests d <= 3
    /\ ((exists result,
           ensure_min_count http yf_Ticker bucket symbols min_count tr
           = (Ok result, tr ++ d)
           /\ (Forall normalized symbols -> Forall normalized result))
        \/ (exists e,
              ensure_min_count http yf_Ticker bucket symbols min_count tr
              = (Raise e, tr ++ d)
              /\ (e = NO_COLUMN
                  \/ exists last, e = fetch_error NIFTY500_CSV last))).
Proof.
  assert (Hbase : Forall normalized symbols ->
                  Forall normalized (dedup symbols)).
  { intros Hn. apply Forall_forall. intros s Hs.
    apply (proj1 (dedup_In _ _)) in Hs.
    rewrite Forall_forall in Hn. now apply Hn. }
  destruct (Z_le_gt_dec min_count (Z.of_nat (List.length (dedup symbols))))
    as [Hle|Hgt].
  - exists []. split; [cbn; lia|].
    left. exists (dedup symbols). rewrite app_nil_r.
    split; [now apply ensure_min_count_enough | exact Hbase].
  - destruct (ensure_min_count_top_up_cases http yf_Ticker bucket symbols
                min_count tr) as [k [Hk Hcases]]; [lia|].
    cbv zeta in Hcases.
    assert (Hreq : requests
                     ([PrintTopUp bucket (List.length (dedup symbols)) min_count]
                      ++ retried NIFTY500_CSV 1 k ++ [HttpGet NIFTY500_CSV])
                   <= 3).
    { rewrite !requests_app, requests_retried. cbn. lia. }
    destruct Hcases as [[_ [last Hfail]]|[df [_ [[_ Hfail]|[ref [Href Hok]]]]]].
    + eexists. split; [exact Hreq|].
      right. exists (fetch_error NIFTY500_CSV last).
      split; [|right; now exists last].
      rewrite Hfail. now rewrite <- !app_assoc.
    + eexists. split; [exact Hreq|].
      right. exists NO_COLUMN. split; [|now left].
      rewrite Hfail. now rewrite <- !app_assoc.
    + exists (([PrintTopUp bucket (List.length (dedup symbols)) min_count]
               ++ retried NIFTY500_CSV 1 k ++ [HttpGet NIFTY500_CSV])
              ++ map TickerLookup (not_in (dedup symbols) ref)).
      split; [rewrite requests_app, requests_map_TickerLookup; lia|].
      left. eexists. split.
      * rewrite Hok. now rewrite <- !app_assoc.
      * intros Hn. apply Forall_app. split; [now apply Hbase|].
        apply Forall_forall. intros s Hs.
        rewrite <- firstn_map in Hs. apply firstn_incl in Hs.
        apply ranked_symbol_rankable in Hs as [Hs _].
        unfold not_in in Hs. apply filter_In in Hs as [Hs _].
        apply extract_symbols_normalized in Href.
        rewrite Forall_forall in Href. now apply Href.
Qed.

Lemma ensure_min_count_grows bucket symbols min_count :
  grows (ensure_min_count http yf_Ticker bucket symbols min_count).
Proof.
  intros tr.
  destruct (ensure_min_count_ends bucket symbols min_count tr)
    as [d [_ [[result [H _]]|[e [H _]]]]]; exists d; now rewrite H.
Qed.

End GrowFacts.

Section BucketFacts.

Variable http : nat -> string -> attempt.
Variable yf_Ticker : string -> result Ticker.
Variable disk : world -> disk_op -> option exn.

(** [build_bucket], step by step: the ways it can end. *)
Lemma build_bucket_cases name url out_file min_count w :
  exists d : trace,
    1 <= requests d <= 6 /\
    let w1 := w ++ PrintBuilding name url :: map Core d in
    let out_path := path_join OUT_DIR out_file in
    (exists e,
       build_bucket http yf_Ticker disk name url out_file min_count w
       = (Raise e, w1)
       /\ (e = NO_COLUMN
           \/ (exists last, e = fetch_error url last)
           \/ (exists last, e = fetch_error NIFTY500_CSV last)))
    \/ (exists df extracted result tr1,
          fetch_csv http url 3 1 (core_of w) = (Ok (Some df), tr1)
          /\ empty df = false
          /\ extract_symbols df = Ok extracted
          /\ ensure_min_count http yf_Ticker name extracted min_count tr1
             = (Ok result, core_of w ++ d)
          /\ Forall normalized result
          /\ ((exists e,
                 disk w1 (DoMakeDirs OUT_DIR) = Some e /\
                 build_bucket http yf_Ticker disk name url out_file min_count w
                 = (Raise e, w1))
              \/ (exists e,
                    disk w1 (DoMakeDirs OUT_DIR) = None /\
                    disk (w1 ++ [MakeDirs OUT_DIR])
                      (DoToCsv out_path (ticker_frame result)) = Some e /\
                    build_bucket http yf_Ticker disk name url out_file
                      min_count w
                    = (Raise e, w1 ++ [MakeDirs OUT_DIR]))
              \/ (disk w1 (DoMakeDirs OUT_DIR) = None /\
                  disk (w1 ++ [MakeDirs OUT_DIR])
                    (DoToCsv out_path (ticker_frame result)) = None /\
                  build_bucket http yf_Ticker disk name url out_file
                    min_count w
                  = (Ok tt,
                     w1 ++ [MakeDirs OUT_DIR;
                            ToCsv out_path (ticker_frame result);
                            PrintSaved (List.length result) out_path])))).
Proof.
  assert (Hcore : core_of (w ++ [PrintBuilding name url]) = core_of w).
  { rewrite core_of_app. cbn. apply app_nil_r. }
  assert (Hw : forall d,
            (w ++ [PrintBuilding name url]) ++ map Core d
            = w ++ PrintBuilding name url :: map Core d).
  { intros d. now rewrite <- app_assoc. }
  destruct (fetch_csv_default http url (core_of w))
    as [d1 [Hreq1 [[df [Hne Hf]]|[last Hf]]]].
  2:{ exists d1. split; [lia|].
      cbv zeta. left. exists (fetch_error url last).
      split; [|right; left; now exists last].
      unfold build_bucket.
      unfold BucketMonad.bind at 1. unfold BucketMonad.emit at 1.
      unfold BucketMonad.bind at 1.
      rewrite (run_core_extends _ _ (Raise (fetch_error url last)) d1)
        by (now rewrite Hcore).
      now rewrite Hw. }
  assert (H1 : BucketMonad.run_core (fetch_csv http url 3 1)
                 (w ++ [PrintBuilding name url])
               = (Ok (Some df), w ++ PrintBuilding name url :: map Core d1)).
  { rewrite (run_core_extends _ _ (Ok (Some df)) d1) by (now rewrite Hcore).
    now rewrite Hw. }
  destruct (extract_symbols df) as [extracted|e] eqn:Hext.
  2:{ exists d1. split; [lia|]. cbv zeta. left. exists e.
      split; [|left; now apply (extract_symbols_raises df)].
      unfold build_bucket.
      unfold BucketMonad.bind at 1. unfold BucketMonad.emit at 1.
      unfold BucketMonad.bind at 1. rewrite H1.
      unfold BucketMonad.bind at 1. unfold BucketMonad.lift at 1.
      cbn [extract_symbols_of]. now rewrite Hext. }
  assert (Hnorm : Forall normalized extracted)
    by (now apply (extract_symbols_normalized df)).
  assert (Hcore1 : core_of (w ++ PrintBuilding name url :: map Core d1)
                   = core_of w ++ d1).
  { rewrite core_of_app. cbn. now rewrite core_of_Core. }
  destruct (ensure_min_count_ends http yf_Ticker name extracted min_count
              (core_of w ++ d1))
    as [d2 [Hreq2 Hends]].
  assert (Hreq : 1 <= requests (d1 ++ d2) <= 6)
    by (rewrite requests_app; lia).
  destruct Hends as [[result [He Hn]]|[e [He Hc]]].
  2:{ exists (d1 ++ d2). split; [exact Hreq|].
      cbv zeta. left. exists e. split.
      - unfold build_bucket.
        unfold BucketMonad.bind at 1. unfold BucketMonad.emit at 1.
        unfold BucketMonad.bind at 1. rewrite H1.
        unfold BucketMonad.bind at 1. unfold BucketMonad.lift at 1.
        cbn [extract_symbols_of]. rewrite Hext.
        unfold BucketMonad.bind at 1.
        rewrite (run_core_extends _ _ (Raise e) d2)
          by (now rewrite Hcore1).
        now rewrite map_app, <- app_assoc.
      - destruct Hc as [->|Hc]; [now left | right; now right]. }
  exists (d1 ++ d2). split; [exact Hreq|]. cbv zeta.
  assert (H2 : BucketMonad.run_core
                 (ensure_min_count http yf_Ticker name extracted min_count)
                 (w ++ PrintBuilding name url :: map Core d1)
               = (Ok result,
                  w ++ PrintBuilding name url :: map Core (d1 ++ d2))).
  { rewrite (run_core_extends _ _ (Ok result) d2) by (now rewrite Hcore1).
    now rewrite map_app, <- app_assoc. }
  assert (Hrun :
    build_bucket http yf_Ticker disk name url out_file min_count w
    = BucketMonad.bind (disk_do disk (DoMakeDirs OUT_DIR))
        (fun _ =>
           BucketMonad.bind
             (disk_do disk
                (DoToCsv (path_join OUT_DIR out_file) (ticker_frame result)))
             (fun _ =>
                BucketMonad.emit
                  (PrintSaved (List.length result)
                     (path_join OUT_DIR out_file))))
        (w ++ PrintBuilding name url :: map Core (d1 ++ d2))).
  { unfold build_bucket.
    unfold BucketMonad.bind at 1. unfold BucketMonad.emit at 1.
    unfold BucketMonad.bind at 1. rewrite H1.
    unfold BucketMonad.bind at 1. unfold BucketMonad.lift at 1.
    cbn [extract_symbols_of]. rewrite Hext.
    unfold BucketMonad.bind at 1. rewrite H2. reflexivity. }
  right. exists df, extracted, result, (core_of w ++ d1).
  split; [exact Hf|]. split; [exact Hne|]. split; [exact Hext|].
  split; [now rewrite app_assoc, He|]. split; [now apply Hn|].
  destruct (disk (w ++ PrintBuilding name url :: map Core (d1 ++ d2))
              (DoMakeDirs OUT_DIR)) as [e|] eqn:Hmk.
  { left. exists e. split; [reflexivity|].
    rewrite Hrun. unfold BucketMonad.bind at 1. unfold disk_do at 1.
    now rewrite Hmk. }
  right.
  destruct (disk ((w ++ PrintBuilding name url :: map Core (d1 ++ d2))
                  ++ [MakeDirs OUT_DIR])
              (DoToCsv (path_join OUT_DIR out_file) (ticker_frame result)))
    as [e|] eqn:Hcsv.
  { left. exists e. split; [reflexivity|]. split; [reflexivity|].
    rewrite Hrun. unfold BucketMonad.bind at 1. unfold disk_do at 1.
    rewrite Hmk. cbn [done].
    unfold BucketMonad.bind at 1. unfold disk_do at 1.
    now rewrite Hcsv. }
  right. split; [reflexivity|]. split; [reflexivity|].
  rewrite Hrun. unfold BucketMonad.bind at 1. unfold disk_do at 1.
  rewrite Hmk. cbn [done].
  unfold BucketMonad.bind at 1. unfold disk_do at 1.
  rewrite Hcsv. cbn [done]. unfold BucketMonad.emit.
  now rewrite <- !app_assoc.
Qed.

End BucketFacts.

Section BucketFiles.

Variable http : nat -> string -> attempt.
Variable yf_Ticker : string -> result Ticker.
Variable disk : world -> disk_op -> option exn.

Lemma written_building w name url d :
  written (w ++ PrintBuilding name url :: map Core d) = written w.
Proof.
  rewrite written_app. cbn. rewrite written_Core. apply app_nil_r.
Qed.

(** The files of one [build_bucket]: its own file when it returns, none
    when it raises. *)
Lemma build_bucket_written name url out_file min_count w :
  exists w',
    (build_bucket http yf_Ticker disk name url out_file min_count w
     = (Ok tt, w')
     /\ written w' = written w ++ [path_join OUT_DIR out_file])
    \/ (exists e,
          build_bucket http yf_Ticker disk name url out_file min_count w
          = (Raise e, w')
          /\ written w' = written w).
Proof.
  destruct (build_bucket_cases http yf_Ticker disk name url out_file
              min_count w) as [d [_ Hcases]].
  cbv zeta in Hcases.
  destruct Hcases as
    [(e & Hrun & _)|(df & extracted & result & tr1 & _ & _ & _ & _ & _ & Hdisk)];
    [|destruct Hdisk as
        [(e & _ & Hrun)|[(e & _ & _ & Hrun)|(_ & _ & Hrun)]]].
  - eexists. right. exists e. split; [exact Hrun|]. apply written_building.
  - eexists. right. exists e. split; [exact Hrun|]. apply written_building.
  - eexists. right. exists e. split; [exact Hrun|].
    rewrite written_app, written_building. cbn. apply app_nil_r.
  - eexists. left. split; [exact Hrun|].
    rewrite written_app, written_building. reflexivity.
Qed.

End BucketFiles.

(** X14. What a [build_bucket] that returns has done.  It has fetched a
    table with rows from its address, extracted the symbols, run
    [ensure_min_count] on them, and then, in this order and after every
    request and lookup: created the output directory, written one file,
    [config/<out_file>], and printed the count.  The frame written has the
    single column [ticker] holding the result of [ensure_min_count]; the
    count printed is its number of rows; every symbol in it is in Yahoo
    form, and [extract_symbols] reads the same list back from it. *)
Theorem build_bucket_saves (http : nat -> string -> attempt)
    (yf_Ticker : string -> result Ticker)
    (disk : world -> disk_op -> option exn)
    (name url out_file : string) (min_count : Z) (w w' : world) :
  build_bucket http yf_Ticker disk name url out_file min_count w
  = (Ok tt, w') ->
  exists df extracted result tr1 d,
    fetch_csv http url 3 1 (core_of w) = (Ok (Some df), tr1)
    /\ extract_symbols df = Ok extracted
    /\ ensure_min_count http yf_Ticker name extracted min_count tr1
       = (Ok result, core_of w ++ d)
    /\ w' = w ++ PrintBuilding name url :: map Core d
              ++ [MakeDirs OUT_DIR;
                  ToCsv (path_join OUT_DIR out_file) (ticker_frame result);
                  PrintSaved (List.length result)
                    (path_join OUT_DIR out_file)]
    /\ written w' = written w ++ [path_join OUT_DIR out_file]
    /\ Forall normalized result
    /\ extract_symbols (ticker_frame result) = Ok result.
Proof.
  intros Hrun.
  destruct (build_bucket_cases http yf_Ticker disk name url out_file
              min_count w) as [d [_ Hcases]].
  cbv zeta in Hcases.
  destruct Hcases as
    [(e & Hfail & _)
    |(df & extracted & result & tr1 & Hf & _ & Hext & Hens & Hnorm & Hdisk)];
    [|destruct Hdisk as
        [(e & _ & Hfail)|[(e & _ & _ & Hfail)|(_ & _ & Hok)]]];
    try (rewrite Hfail in Hrun; discriminate).
  rewrite Hok in Hrun. injection Hrun as <-.
  exists df, extracted, result, tr1, d.
  split; [exact Hf|]. split; [exact Hext|]. split; [exact Hens|].
  split; [now rewrite <- app_assoc|].
  split; [rewrite written_app, written_building; reflexivity|].
  split; [exact Hnorm|].
  rewrite extract_symbols_ticker_frame. now rewrite map_normalized.
Qed.

Lemma build_bucket_saves_witness :
  exists w',
    build_bucket flaky_network sample_provider willing_disk
      "largecap" NIFTY100_CSV "largecap.csv" 3 [] = (Ok tt, w')
    /\ written w' = ["config/largecap.csv"].
Proof.
  destruct (build_bucket flaky_network sample_provider willing_disk
              "largecap" NIFTY100_CSV "largecap.csv" 3 [])
    as [r w'] eqn:Hrun.
  destruct r as [[]|e]; [|vm_compute in Hrun; discriminate].
  exists w'. split; [reflexivity|].
  destruct (build_bucket_saves _ _ _ _ _ _ _ _ _ Hrun)
    as [_ [_ [_ [_ [_ [_ [_ [_ [_ [Hw _]]]]]]]]]].
  exact Hw.
Defined.

(** X15. A [build_bucket] that raises has written no file and printed no
    count: the effects it leaves are its first console line, followed by
    requests, sleeps, top-up lines and lookups, and at most the creation
    of the directory.  The exception is the [RuntimeError] of [fetch_csv],
    for the address of the bucket or for the reference universe, the
    [ValueError] of [extract_symbols], or one that the disk raised; in
    particular [extract_symbols] is never given the [None] of an
    exhausted [fetch_csv]. *)
Theorem build_bucket_failure (http : nat -> string -> attempt)
    (yf_Ticker : string -> result Ticker)
    (disk : world -> disk_op -> option exn)
    (name url out_file : string) (min_count : Z) (w w' : world) (e : exn) :
  build_bucket http yf_Ticker disk name url out_file min_count w
  = (Raise e, w') ->
  written w' = written w
  /\ (exists d,
        w' = w ++ PrintBuilding name url :: map Core d \/
        w' = w ++ PrintBuilding name url :: map Core d ++ [MakeDirs OUT_DIR])
  /\ (e = NO_COLUMN
      \/ (exists last, e = fetch_error url last)
      \/ (exists last, e = fetch_error NIFTY500_CSV last)
      \/ (exists w0 op, disk w0 op = Some e)).
Proof.
  intros Hrun.
  destruct (build_bucket_cases http yf_Ticker disk name url out_file
              min_count w) as [d [_ Hcases]].
  cbv zeta in Hcases.
  destruct Hcases as
    [(e' & Hfail & Hclass)
    |(df & extracted & result & tr1 & _ & _ & _ & _ & _ & Hdisks)];
    [|destruct Hdisks as
        [(e' & Hdisk & Hfail)|[(e' & _ & Hdisk & Hfail)|(_ & _ & Hok)]]].
  - rewrite Hfail in Hrun. injection Hrun as <- <-.
    split; [apply written_building|]. split; [exists d; now left|].
    destruct Hclass as [H|[H|H]]; [now left | right; now left |].
    right. right. now left.
  - rewrite Hfail in Hrun. injection Hrun as <- <-.
    split; [apply written_building|]. split; [exists d; now left|].
    right. right. right. eexists. eexists. exact Hdisk.
  - rewrite Hfail in Hrun. injection Hrun as <- <-.
    split; [rewrite written_app, written_building; cbn; apply app_nil_r|].
    split; [exists d; right; now rewrite <- app_assoc|].
    right. right. right. eexists. eexists. exact Hdisk.
  - rewrite Hok in Hrun. discriminate.
Qed.

Lemma build_bucket_failure_witness :
  exists e w',
    build_bucket flaky_network sample_provider full_disk
      "largecap" NIFTY100_CSV "largecap.csv" 3 [] = (Raise e, w')
    /\ written w' = [].
Proof.
  destruct (build_bucket flaky_network sample_provider full_disk
              "largecap" NIFTY100_CSV "largecap.csv" 3 [])
    as [r w'] eqn:Hrun.
  destruct r as [u|e]; [vm_compute in Hrun; discriminate|].
  exists e, w'. split; [reflexivity|].
  exact (proj1 (build_bucket_failure _ _ _ _ _ _ _ _ _ _ Hrun)).
Defined.

Section MainFacts.

Variable http : nat -> string -> attempt.
Variable yf_Ticker : string -> result Ticker.
Variable disk : world -> disk_op -> option exn.

(** The loop of [main] over any list of targets: the files written are
    those of a prefix of the targets, of all of them exactly when the
    loop returns. *)
Lemma build_all_written targets args_min w :
  exists n,
    n <= List.length targets
    /\ written (snd (build_all http yf_Ticker disk targets args_min w))
       = written w
         ++ map (fun t => path_join OUT_DIR (fst (snd t))) (firstn n targets)
    /\ (fst (build_all http yf_Ticker disk targets args_min w) = Ok tt
        <-> n = List.length targets).
Proof.
  revert w. induction targets as [|[bucket [fname url]] rest IH]; intros w.
  - exists 0. cbn. rewrite app_nil_r. repeat split; auto.
  - cbn [build_all]. unfold BucketMonad.bind.
    destruct (build_bucket_written http yf_Ticker disk bucket url fname
                args_min w) as [w' [[Hrun Hw]|[e [Hrun Hw]]]]; rewrite Hrun;
      cbv beta iota.
    + destruct (IH w') as [n [Hn [Hfiles Hiff]]].
      exists (S n). split; [cbn; lia|]. split.
      * rewrite Hfiles, Hw. cbn. now rewrite <- app_assoc.
      * split; intros H.
        -- apply Hiff in H. cbn. lia.
        -- apply Hiff. cbn in H. lia.
    + exists 0. split; [cbn; lia|]. split.
      * cbn. now rewrite Hw, app_nil_r.
      * cbn. split; [discriminate | lia].
Qed.

End MainFacts.

(** X16. The files [main] writes.  Whatever the network, the market-data
    provider and the disk do, the files written by a run of [main] are the
    first [n] of [config/largecap.csv], [config/midcap.csv],
    [config/smallcap.csv], in this order, and [main] returns exactly when
    all three are written: a bucket that fails ends the run, and no later
    bucket is built. *)
Theorem main_writes_the_buckets_in_order (http : nat -> string -> attempt)
    (yf_Ticker : string -> result Ticker)
    (disk : world -> disk_op -> option exn) (args_min : Z) (w : world) :
  exists n,
    n <= 3
    /\ written (snd (main http yf_Ticker disk args_min w))
       = written w
         ++ firstn n ["config/largecap.csv"; "config/midcap.csv";
                      "config/smallcap.csv"]
    /\ (fst (main http yf_Ticker disk args_min w) = Ok tt <-> n = 3).
Proof.
  destruct (build_all_written http yf_Ticker disk TARGETS args_min w)
    as [n [Hn [Hfiles Hiff]]].
  exists n. split; [exact Hn|]. split; [|exact Hiff].
  unfold main. rewrite Hfiles. f_equal.
  cbn in Hn.
  destruct n as [|[|[|[|n]]]]; try reflexivity.
Qed.

Section RequestFacts.

Variable http : nat -> string -> attempt.
Variable yf_Ticker : string -> result Ticker.
Variable disk : world -> disk_op -> option exn.

Lemma core_of_building w name url d :
  core_of (w ++ PrintBuilding name url :: map Core d) = core_of w ++ d.
Proof. rewrite core_of_app. cbn. now rewrite core_of_Core. Qed.

(** One [build_bucket]: between one and six requests. *)
Lemma build_bucket_requests name url out_file min_count w :
  requests (core_of w) + 1
  <= requests (core_of (snd (build_bucket http yf_Ticker disk name url
                               out_file min_count w)))
  <= requests (core_of w) + 6.
Proof.
  destruct (build_bucket_cases http yf_Ticker disk name url out_file
              min_count w) as [d [Hreq Hcases]].
  cbv zeta in Hcases.
  destruct Hcases as
    [(e & Hrun & _)|(df & extracted & result & tr1 & _ & _ & _ & _ & _ & Hdisk)];
    [|destruct Hdisk as
        [(e & _ & Hrun)|[(e & _ & _ & Hrun)|(_ & _ & Hrun)]]];
    rewrite Hrun; cbn [snd];
    rewrite !core_of_app; cbn [core_of]; rewrite core_of_Core, ?app_nil_r;
    rewrite requests_app; lia.
Qed.

Lemma build_all_requests targets args_min w :
  requests (core_of w) + Nat.min 1 (List.length targets)
  <= requests (core_of (snd (build_all http yf_Ticker disk targets
                               args_min w)))
  <= requests (core_of w) + 6 * List.length targets.
Proof.
  revert w. induction targets as [|[bucket [fname url]] rest IH]; intros w.
  - unfold build_all, BucketMonad.ret. cbn [snd List.length]. lia.
  - cbn [build_all]. unfold BucketMonad.bind.
    pose proof (build_bucket_requests bucket url fname args_min w) as Hone.
    destruct (build_bucket http yf_Ticker disk bucket url fname args_min w)
      as [[[]|e] w'].
    + specialize (IH w'). cbn [snd] in Hone. cbn [List.length]. lia.
    + cbn [snd] in *. cbn [List.length]. lia.
Qed.

End RequestFacts.

(** X17. The budget of [requests.get] calls of a run.  Whatever the
    network, the market-data provider and the disk do, one [build_bucket]
    calls [requests.get] at least once and at most six times, up to three
    times for the address of the bucket and up to three times for the
    reference universe, and a run of [main] at least once and at most
    eighteen times.  The lookups of the market-data provider are not
    part of this count. *)
Theorem request_budget (http : nat -> string -> attempt)
    (yf_Ticker : string -> result Ticker)
    (disk : world -> disk_op -> option exn) (args_min : Z) (w : world) :
  (forall name url out_file min_count,
     requests (core_of w) + 1
     <= requests (core_of (snd (build_bucket http yf_Ticker disk name url
                                  out_file min_count w)))
     <= requests (core_of w) + 6)
  /\ requests (core_of w) + 1
     <= requests (core_of (snd (main http yf_Ticker disk args_min w)))
     <= requests (core_of w) + 18.
Proof.
  split.
  - intros name url out_file min_count. apply build_bucket_requests.
  - pose proof (build_all_requests http yf_Ticker disk TARGETS args_min w)
      as H.
    change (List.length TARGETS) with 3 in H. unfold main. lia.
Qed.
